(** * djangobulk.bulk: bulk insert / update / upsert of simple Django models

    A shallow embedding of [src/djangobulk/bulk.py].

    The Python module talks to three collaborators that are not part of the
    repository: the model metadata ([model._meta]), the objects of the batch
    (ordinary mutable Python objects, which may carry a [presave] method) and
    the database connection.  They are modelled as follows.

    - A Python object is a reference ([oid]) into a heap; the heap holds the
      object's attributes and, when the object has one, its [presave]
      method.  Objects are shared: the same reference may occur several
      times in a batch, and every phase of an operation sees the mutations
      of the earlier ones.
    - Every effect on the outside world is recorded as an [Event], in the
      order in which the code performs it: a call of [obj.presave()], a
      [cursor.execute], a [cursor.executemany], a commit.
    - A generator ([_filter_objects] uses [yield]) is a suspended
      computation that runs up to its next [yield] only when its consumer
      asks for the next element.
    - [f.get_db_prep_save(f.pre_save(obj, True), connection=con)] is taken
      to read the object: [db_prep_save] computes the value from the
      attributes and writes nothing, so that the state of an object changes
      in calls of [presave] only.  A field whose [pre_save] writes the
      instance (Django's [auto_now] dates) is outside the model. *)

From stdpp Require Import base strings list gmap sets functions.

Open Scope string_scope.
Open Scope list_scope.
Open Scope nat_scope.
#[global] Set Warnings "-clear-no-such-hyp".

(** ** Python objects *)

Definition oid := nat.

Section Objects.
Context {Attrs : Type}.

(** The state of one object: its attribute values and its [presave] method,
    if [hasattr(obj, 'presave') and callable(obj.presave)] holds. *)
Record Obj := mkObj {
  attrs : Attrs;
  presave : option (Attrs → Attrs)
}.

Definition set_attrs (ob : Obj) (a : Attrs) : Obj :=
  {| attrs := a; presave := presave ob |}.

End Objects.
Arguments Obj : clear implicits.

(** The heap: the state of every object. *)
Abbreviation Heap Attrs := (oid → Obj Attrs).

(** ** Effects *)

Inductive Exn := AssertionError (msg : string).

Inductive Result (A : Type) :=
| Ok (a : A)
| Raise (e : Exn).
Arguments Ok {A} a.
Arguments Raise {A} e.

Section Events.
Context {Value : Type}.

Inductive Event :=
| Presave (o : oid)
| Execute (sql : string) (params : list Value)
| ExecuteMany (sql : string) (params : list (list Value))
| Commit.

End Events.
Arguments Event : clear implicits.

(** A computation reads and updates the heap, emits events, and either
    returns a value or raises. *)
Definition M (Attrs Value A : Type) : Type :=
  Heap Attrs → Result A * Heap Attrs * list (Event Value).

Section Monad.
Context {Attrs Value : Type}.
Abbreviation M := (M Attrs Value).

#[export] Instance M_ret : MRet M := λ A a h, (Ok a, h, []).

#[export] Instance M_bind : MBind M := λ A B f m h,
  match m h with
  | (Ok a, h1, ev1) =>
      match f a h1 with
      | (r, h2, ev2) => (r, h2, ev1 ++ ev2)
      end
  | (Raise e, h1, ev1) => (Raise e, h1, ev1)
  end.

Definition raise {A} (e : Exn) : M A := λ h, (Raise e, h, []).

Definition emit (e : Event Value) : M unit := λ h, (Ok tt, h, [e]).

Definition get_obj (o : oid) : M (Obj Attrs) := λ h, (Ok (h o), h, []).

Definition set_obj (o : oid) (ob : Obj Attrs) : M unit :=
  λ h, (Ok tt, <[o := ob]> h, []).

(** [assert cond, msg] *)
Definition assert (cond : bool) (msg : string) : M unit :=
  if cond then mret tt else raise (AssertionError msg).

(** ** Generators *)

(** A generator object: either exhausted, or suspended just before a
    [yield], or suspended before a stretch of code that has effects and
    leads to the rest of the generator. *)
#[warnings="-register-all"] Inductive Gen (A : Type) : Type :=
| GStop
| GYield (a : A) (rest : Gen A)
| GRun (m : M (Gen A)).
Arguments GStop {A}.
Arguments GYield {A} a rest.
Arguments GRun {A} m.

(** [[body(x) for x in g]] *)
Fixpoint for_gen {A B} (g : Gen A) (body : A → M B) : M (list B) :=
  match g with
  | GStop => mret []
  | GYield a rest =>
      b ← body a;
      bs ← for_gen rest body;
      mret (b :: bs)
  | GRun m => λ h,
      match m h with
      | (Ok g', h1, ev1) =>
          match for_gen g' body h1 with
          | (r, h2, ev2) => (r, h2, ev1 ++ ev2)
          end
      | (Raise e, h1, ev1) => (Raise e, h1, ev1)
      end
  end.

End Monad.
Arguments Gen : clear implicits.
Arguments GStop {Attrs Value A}.
Arguments GYield {Attrs Value A} a rest.
Arguments GRun {Attrs Value A} m.

(** ** Model metadata *)

Section Schema.
Context {Attrs Value : Type}.

(** One entry of [model._meta.fields].  [is_auto] is
    [isinstance(f, models.AutoField)]; [db_prep_save] is what
    [f.get_db_prep_save(f.pre_save(obj, True), connection=con)] computes
    from the attributes of [obj]. *)
Record Field := mkField {
  name : string;
  column : string;
  is_auto : bool;
  db_prep_save : Attrs → Value
}.

(** [model._meta]: [db_table], [fields] in declaration order, and
    [pk.name]. *)
Record Model := mkModel {
  db_table : string;
  fields : list Field;
  pk_name : string
}.

End Schema.
Arguments Field : clear implicits.
Arguments Model : clear implicits.

(** ** String helpers *)

(** [sep.join(l)] *)
Fixpoint join (sep : string) (l : list string) : string :=
  match l with
  | [] => ""
  | [x] => x
  | x :: l' => x +:+ sep +:+ join sep l'
  end.

(** ** The module *)

Section Bulk.
Context {Attrs Value : Type} `{Countable Value}.
(** [con.ops.quote_name] *)
Context (quote_name : string → string).
(** The rows that [cursor.fetchall()] returns after
    [cursor.execute(sql, parameters)]. *)
Context (fetchall : string → list Value → list (list Value)).
(** Whether the connection is inside a transaction managed by the caller. *)
Context (managed : bool).

Abbreviation M := (M Attrs Value).
Abbreviation Field := (Field Attrs Value).
Abbreviation Model := (Model Attrs Value).
Abbreviation Gen := (Gen Attrs Value).

(** [transaction.commit_unless_managed(using)]: commits, unless the caller
    manages the transaction. *)
Definition commit_unless_managed : M unit :=
  if managed then mret tt else emit Commit.

(** The [objects] argument is either a Python list or a generator object. *)
Inductive Iterable :=
| PyList (l : list oid)
| PyGen (g : Gen oid).

(** Truth value of [objects]: a list is true when it is not empty, a
    generator object is always true. *)
Definition truthy (objects : Iterable) : bool :=
  match objects with
  | PyList [] => false
  | PyList (_ :: _) => true
  | PyGen _ => true
  end.

(** [[body(o) for o in objects]] *)
Definition for_each {B} (objects : Iterable) (body : oid → M B) : M (list B) :=
  match objects with
  | PyList l => mapM body l
  | PyGen g => for_gen g body
  end.

Definition _model_fields (model : Model) : list Field :=
  filter (λ f, negb (is_auto f)) (fields model).

(** [obj.presave()], when the object has the method. *)
Definition call_presave (o : oid) : M unit :=
  obj ← get_obj o;
  match presave obj with
  | Some hook =>
      emit (Presave o);;
      set_obj o (set_attrs obj (hook (attrs obj)))
  | None => mret tt
  end.

Definition _prep_values (fields : list Field) (o : oid) : M (list Value) :=
  call_presave o;;
  obj ← get_obj o;
  mret (map (λ f, db_prep_save f (attrs obj)) fields).

Definition insert_sql (model : Model) : string :=
  let fields := _model_fields model in
  let table := db_table model in
  let col_names := join "," (map (λ f, quote_name (column f)) fields) in
  let placeholders := join "," (replicate (length fields) "%s") in
  "INSERT INTO " +:+ table +:+ " (" +:+ col_names +:+ ") VALUES ("
    +:+ placeholders +:+ ")".

Definition _insert_many (model : Model) (objects : Iterable) : M unit :=
  if negb (truthy objects) then mret tt else
  let fields := _model_fields model in
  parameters ← for_each objects (_prep_values fields);
  let sql := insert_sql model in
  emit (ExecuteMany sql parameters).

Definition insert_many (model : Model) (objects : list oid) : M unit :=
  _insert_many model (PyList objects);;
  commit_unless_managed.

(** [keys or default] *)
Definition keys_or (keys : option (list string)) (default : list string)
  : list string :=
  match keys with
  | Some (k :: ks) => k :: ks
  | Some [] | None => default
  end.

(** [[f for f in model._meta.fields if f.name in keys]] *)
Definition key_fields_of (model : Model) (keys : list string) : list Field :=
  filter (λ f, name f ∈ keys) (fields model).

(** [[f for f in _model_fields(model) if f.name not in keys]] *)
Definition value_fields_of (model : Model) (keys : list string) : list Field :=
  filter (λ f, name f ∉ keys) (_model_fields model).

Definition update_sql (model : Model) (keys : list string) : string :=
  let key_fields := key_fields_of model keys in
  let value_fields := value_fields_of model keys in
  let table := db_table model in
  let assignments :=
    join "," (map (λ f, quote_name (column f) +:+ "=%s") value_fields) in
  let where_keys :=
    join " AND " (map (λ f, quote_name (column f) +:+ "=%s") key_fields) in
  "UPDATE " +:+ table +:+ " SET " +:+ assignments +:+ " WHERE " +:+ where_keys.

Definition _update_many (model : Model) (objects : list oid)
    (keys : option (list string)) : M unit :=
  if bool_decide (objects = []) then mret tt else
  let keys := keys_or keys [pk_name model] in
  let key_fields := key_fields_of model keys in
  let value_fields := value_fields_of model keys in
  assert (bool_decide (key_fields ≠ [])) "Empty key fields";;
  let param_fields := value_fields ++ key_fields in
  parameters ← mapM (_prep_values param_fields) objects;
  let sql := update_sql model keys in
  emit (ExecuteMany sql parameters).

Definition update_many (model : Model) (objects : list oid)
    (keys : option (list string)) : M unit :=
  _update_many model objects keys;;
  commit_unless_managed.

(** The body of the [for] loop of [_filter_objects], over what is left of
    [reversed(objects)], with the current [keyset]. *)
Fixpoint filter_loop (key_fields : list Field) (rest : list oid)
    (keyset : gset (list Value)) : Gen oid :=
  match rest with
  | [] => GStop
  | o :: rest' =>
      GRun (okeys ← _prep_values key_fields o;
            if decide (okeys ∈ keyset)
            then mret (filter_loop key_fields rest' keyset)
            else mret (GYield o
                         (filter_loop key_fields rest' ({[okeys]} ∪ keyset))))
  end.

(** Calling the generator function runs none of its body. *)
Definition _filter_objects (objects : list oid) (key_fields : list Field)
  : Gen oid :=
  GRun (let keyset := ∅ in
        mret (filter_loop key_fields (reverse objects) keyset)).

(** [[(o, _prep_values(key_fields, o, con)) for o in objects]] *)
Definition object_keys_of (key_fields : list Field) (objects : list oid)
  : M (list (oid * list Value)) :=
  mapM (λ o, k ← _prep_values key_fields o; mret (o, k)) objects.

Definition select_sql (model : Model) (keys : list string) (n : nat) : string :=
  let key_fields := key_fields_of model keys in
  let table := db_table model in
  let col_names := join "," (map (λ f, quote_name (column f)) key_fields) in
  let tuple_placeholder :=
    "(" +:+ join "," (replicate (length key_fields) "%s") +:+ ")" in
  let placeholders := join "," (replicate n tuple_placeholder) in
  "SELECT " +:+ col_names +:+ " FROM " +:+ table +:+ " WHERE (" +:+ col_names
    +:+ ") IN (" +:+ placeholders +:+ ")".

(** [[o for (o, k) in object_keys if k in existing]] *)
Definition update_objects_of (object_keys : list (oid * list Value))
    (existing : gset (list Value)) : list oid :=
  (filter (λ ok, ok.2 ∈ existing) object_keys).*1.

(** [[o for (o, k) in object_keys if k not in existing]] *)
Definition insert_objects_of (object_keys : list (oid * list Value))
    (existing : gset (list Value)) : list oid :=
  (filter (λ ok, ok.2 ∉ existing) object_keys).*1.

Definition insert_or_update_many (model : Model) (objects : list oid)
    (keys : option (list string)) (skip_update : bool) : M unit :=
  if bool_decide (objects = []) then mret tt else
  let keys := keys_or keys [pk_name model] in
  let key_fields := key_fields_of model keys in
  assert (bool_decide (key_fields ≠ [])) "Empty key fields";;
  object_keys ← object_keys_of key_fields objects;
  let parameters := concat (object_keys.*2) in
  let sql := select_sql model keys (length objects) in
  emit (Execute sql parameters);;
  let existing : gset (list Value) := list_to_set (fetchall sql parameters) in
  (if negb skip_update then
     let update_objects := update_objects_of object_keys existing in
     _update_many model update_objects (Some keys)
   else mret tt);;
  let insert_objects := insert_objects_of object_keys existing in
  let filtered_objects := _filter_objects insert_objects key_fields in
  _insert_many model (PyGen filtered_objects);;
  commit_unless_managed.

End Bulk.

(** ** A concrete schema: Person{id(auto), email(key), name} *)

Module Person.

Record attrs := mk { id : string; email : string; pname : string }.

Definition f_id : Field attrs string :=
  {| name := "id"; column := "id"; is_auto := true; db_prep_save := id |}.
Definition f_email : Field attrs string :=
  {| name := "email"; column := "email"; is_auto := false;
     db_prep_save := email |}.
Definition f_name : Field attrs string :=
  {| name := "name"; column := "name"; is_auto := false;
     db_prep_save := pname |}.

Definition model : Model attrs string :=
  {| db_table := "person"; fields := [f_id; f_email; f_name];
     pk_name := "id" |}.

(** MySQL's [quote_name]. *)
Definition backtick (s : string) : string := "`" +:+ s +:+ "`".

(** A [presave] method that marks the name. *)
Definition touch (a : attrs) : attrs :=
  {| id := id a; email := email a; pname := pname a +:+ "!" |}.

(** Objects 0 and 1 share an e-mail address; object 2 has a [presave]
    method; object 3 has another address. *)
Definition heap : Heap attrs := λ o,
  match o with
  | 0 => mkObj (mk "" "a@x" "Ann") None
  | 1 => mkObj (mk "" "a@x" "Ann2") None
  | 2 => mkObj (mk "" "b@x" "Bob") (Some touch)
  | _ => mkObj (mk "" "c@x" "Cy") None
  end.

(** An empty table: every select returns no row. *)
Definition empty_table (sql : string) (params : list string)
  : list (list string) := [].

(** A table that already holds every one-column key asked for. *)
Definition full_table (sql : string) (params : list string)
  : list (list string) := map (λ x, [x]) params.

(** The key set used in the runs below. *)
Definition email_key : option (list string) := Some ["email"].

End Person.

(** ** Observations on a run *)

Section Observations.
Context {Attrs Value A : Type}.
Implicit Types x : Result A * Heap Attrs * list (Event Value).

Definition result_of x : Result A := x.1.1.
Definition heap_of x : Heap Attrs := x.1.2.
Definition events_of x : list (Event Value) := x.2.

End Observations.

Definition is_presave {Value} (o : oid) (e : Event Value) : bool :=
  match e with
  | Presave o' => bool_decide (o' = o)
  | _ => false
  end.

Definition is_commit {Value} (e : Event Value) : bool :=
  match e with
  | Commit => true
  | _ => false
  end.

(** A round trip to the store: everything but a call of [presave]. *)
Definition is_round_trip {Value} (e : Event Value) : bool :=
  match e with
  | Presave _ => false
  | _ => true
  end.

(** How many times [o.presave()] was called. *)
Definition presave_calls {Value} (o : oid) (evs : list (Event Value)) : nat :=
  length (filter (λ e, is_presave o e) evs).

Definition commits {Value} (evs : list (Event Value)) : nat :=
  length (filter (λ e, is_commit e) evs).

(** ** What one call of [_prep_values] does *)

Section Prep.
Context {Attrs Value : Type}.
Implicit Types (h : Heap Attrs) (o : oid) (fs : list (Field Attrs Value)).

Definition has_presave h o : Prop := is_Some (presave (h o)).

#[export] Instance has_presave_dec h o : Decision (has_presave h o).
Proof. unfold has_presave. apply _. Defined.

(** The heap after [call_presave o]. *)
Definition after_presave o h : Heap Attrs :=
  match presave (h o) with
  | Some hook => <[o := set_attrs (h o) (hook (attrs (h o)))]> h
  | None => h
  end.

(** The objects of [l] that have a [presave] method, in order. *)
Definition hooked h (l : list oid) : list oid := filter (has_presave h) l.

(** The tuple [_prep_values] builds from attributes [a]. *)
Definition row_of fs (a : Attrs) : list Value :=
  map (λ f, db_prep_save f a) fs.

(** One call of [presave] on an object (nothing, without the method). *)
Definition presave_step (ob : Obj Attrs) : Obj Attrs :=
  match presave ob with
  | Some hook => set_attrs ob (hook (attrs ob))
  | None => ob
  end.

(** [h'] is [h] after some calls of [presave] on some objects. *)
Definition evolves h h' : Prop := ∀ o, ∃ n, h' o = Nat.iter n presave_step (h o).

(** [row] is what [_prep_values fs] computes from object [o] of heap [h]
    after some calls of its [presave] method; for an object without the
    method, from its attributes as they are. *)
Definition prepared h fs (o : oid) (row : list Value) : Prop :=
  ∃ n, row = row_of fs (attrs (Nat.iter n presave_step (h o))).

(** Two heaps whose objects have the same methods. *)
Definition same_hooks h h' : Prop := ∀ o, presave (h' o) = presave (h o).

End Prep.

(** ** The deduplicator, as the docstring and the comment describe it *)

Section FirstSeen.
Context {Value : Type} `{Countable Value}.

(** Scanning [(object, key-tuple)] pairs from the left, keep a pair when its
    key-tuple is neither in [seen] nor among the pairs before it. *)
Fixpoint first_seen (seen : gset (list Value))
    (scan : list (oid * list Value)) : list (oid * list Value) :=
  match scan with
  | [] => []
  | ok :: scan' =>
      if decide (ok.2 ∈ seen) then first_seen seen scan'
      else ok :: first_seen ({[ok.2]} ∪ seen) scan'
  end.

End FirstSeen.

(** ** The statements with every identifier quoted

    The three statements as they read when the table name goes through
    [quote_name] like the column names. *)

Section QuotedStatements.
Context {Attrs Value : Type}.
Context (quote_name : string → string).
Implicit Types (model : Model Attrs Value).

Definition quoted_insert_sql model : string :=
  let fields := _model_fields model in
  "INSERT INTO " +:+ quote_name (db_table model) +:+ " ("
    +:+ join "," (map (λ f, quote_name (column f)) fields) +:+ ") VALUES ("
    +:+ join "," (replicate (length fields) "%s") +:+ ")".

Definition quoted_update_sql model (keys : list string) : string :=
  "UPDATE " +:+ quote_name (db_table model) +:+ " SET "
    +:+ join "," (map (λ f, quote_name (column f) +:+ "=%s")
                    (value_fields_of model keys))
    +:+ " WHERE "
    +:+ join " AND " (map (λ f, quote_name (column f) +:+ "=%s")
                        (key_fields_of model keys)).

Definition quoted_select_sql model (keys : list string) (n : nat) : string :=
  let key_fields := key_fields_of model keys in
  let col_names := join "," (map (λ f, quote_name (column f)) key_fields) in
  "SELECT " +:+ col_names +:+ " FROM " +:+ quote_name (db_table model)
    +:+ " WHERE (" +:+ col_names +:+ ") IN ("
    +:+ join ","
          (replicate n
             ("(" +:+ join "," (replicate (length key_fields) "%s") +:+ ")"))
    +:+ ")".

End QuotedStatements.

(** * Properties *)

(** ** The monad *)

Section MonadFacts.
Context {Attrs Value : Type}.
Abbreviation M := (M Attrs Value).
Implicit Types (h : Heap Attrs) (evs : list (Event Value)).

Lemma bind_ok {A B} (m : M A) (f : A → M B) h a h1 ev1 :
  m h = (Ok a, h1, ev1) →
  (m ≫= f) h = (result_of (f a h1), heap_of (f a h1), ev1 ++ events_of (f a h1)).
Proof.
  intros Hm. unfold mbind, M_bind. rewrite Hm.
  by destruct (f a h1) as [[r h2] ev2].
Qed.

Lemma bind_raise {A B} (m : M A) (f : A → M B) h e h1 ev1 :
  m h = (Raise e, h1, ev1) → (m ≫= f) h = (Raise e, h1, ev1).
Proof. intros Hm. unfold mbind, M_bind. by rewrite Hm. Qed.

Lemma bind_ok_ok {A B} (m : M A) (f : A → M B) h a h1 ev1 r h2 ev2 :
  m h = (Ok a, h1, ev1) → f a h1 = (r, h2, ev2) →
  (m ≫= f) h = (r, h2, ev1 ++ ev2).
Proof. intros Hm Hf. by rewrite (bind_ok _ _ _ _ _ _ Hm), Hf. Qed.

Lemma for_gen_run {A B} (m : M (Gen Attrs Value A)) (body : A → M B) h g h1 ev1
    r h2 ev2 :
  m h = (Ok g, h1, ev1) → for_gen g body h1 = (r, h2, ev2) →
  for_gen (GRun m) body h = (r, h2, ev1 ++ ev2).
Proof. intros Hm Hg. simpl. by rewrite Hm, Hg. Qed.

End MonadFacts.

(** ** Counting events *)

Section Counting.
Context {Value : Type}.
Implicit Types (evs : list (Event Value)) (o : oid).

Lemma presave_calls_app o evs1 evs2 :
  presave_calls o (evs1 ++ evs2) = presave_calls o evs1 + presave_calls o evs2.
Proof. unfold presave_calls. by rewrite list.filter_app, length_app. Qed.

Lemma presave_calls_nil o : presave_calls (Value := Value) o [] = 0.
Proof. done. Qed.

Lemma presave_calls_presaves o (l : list oid) :
  presave_calls (Value := Value) o (Presave <$> l) = length (filter (λ x, x = o) l).
Proof.
  unfold presave_calls. induction l as [|x l IH]; [done|].
  rewrite fmap_cons, !filter_cons. simpl.
  destruct (decide (x = o)) as [->|Hne].
  - rewrite bool_decide_true by done. simpl. by rewrite IH.
  - rewrite bool_decide_false by done. simpl. done.
Qed.

Lemma presave_calls_round_trip o (e : Event Value) :
  is_round_trip e = true → presave_calls o [e] = 0.
Proof. by destruct e. Qed.

Lemma commits_app evs1 evs2 : commits (evs1 ++ evs2) = commits evs1 + commits evs2.
Proof. unfold commits. by rewrite list.filter_app, length_app. Qed.

Lemma commits_presaves (l : list oid) : commits (Value := Value) (Presave <$> l) = 0.
Proof. unfold commits. induction l as [|x l IH]; [done|]. by rewrite fmap_cons, filter_cons. Qed.

Lemma count_not_elem (l : list oid) o :
  o ∉ l → length (filter (λ x, x = o) l) = 0.
Proof.
  induction l as [|x l IH]; [done|].
  intros [Hne Hno]%not_elem_of_cons.
  rewrite filter_cons_False by done. by apply IH.
Qed.

Lemma count_elem (l : list oid) o :
  o ∈ l → 1 ≤ length (filter (λ x, x = o) l).
Proof.
  induction l as [|x l IH]; [by intros ?%elem_of_nil|].
  intros [->|Hin]%elem_of_cons.
  - rewrite filter_cons_True by done. simpl. lia.
  - destruct (decide (x = o)).
    + rewrite filter_cons_True by done. simpl. lia.
    + rewrite filter_cons_False by done. by apply IH.
Qed.

Lemma count_sublist (l1 l2 : list oid) o :
  sublist l1 l2 →
  length (filter (λ x, x = o) l1) ≤ length (filter (λ x, x = o) l2).
Proof.
  induction 1 as [|x l1 l2 Hsub IH|x l1 l2 Hsub IH]; [done| |].
  - destruct (decide (x = o)).
    + rewrite !filter_cons_True by done. simpl. lia.
    + by rewrite !filter_cons_False by done.
  - destruct (decide (x = o)).
    + rewrite filter_cons_True by done. simpl. lia.
    + by rewrite filter_cons_False by done.
Qed.

End Counting.

(** ** [_prep_values] and loops over it *)

Section PrepFacts.
Context {Attrs Value : Type}.
Implicit Types (h : Heap Attrs) (o : oid) (fs : list (Field Attrs Value)).
Implicit Types (l : list oid).

Lemma presave_iter_step n (ob : Obj Attrs) :
  presave (Nat.iter n presave_step ob) = presave ob.
Proof.
  induction n as [|n IH]; [done|]. simpl. rewrite <- IH.
  generalize (Nat.iter n presave_step ob). intros ob'.
  unfold presave_step. by destruct (presave ob') eqn:Hp.
Qed.

Lemma evolves_refl h : evolves h h.
Proof. intros o. by exists 0. Qed.

Lemma evolves_trans h1 h2 h3 : evolves h1 h2 → evolves h2 h3 → evolves h1 h3.
Proof.
  intros H12 H23 o. destruct (H12 o) as [n Hn], (H23 o) as [m Hm].
  exists (m + n). by rewrite Nat.iter_add, <- Hn.
Qed.

Lemma after_presave_same o h : after_presave o h o = presave_step (h o).
Proof.
  unfold after_presave, presave_step.
  destruct (presave (h o)); [|done]. by rewrite fn_lookup_insert.
Qed.

Lemma evolves_after_presave o h : evolves h (after_presave o h).
Proof.
  intros o'. destruct (decide (o = o')) as [<-|Hne].
  - exists 1. apply after_presave_same.
  - exists 0. unfold after_presave.
    destruct (presave (h o)); [|done]. by rewrite fn_lookup_insert_ne.
Qed.

Lemma evolves_same_hooks h h' : evolves h h' → same_hooks h h'.
Proof. intros He o. destruct (He o) as [n ->]. apply presave_iter_step. Qed.

Lemma prepared_after_presave fs o h :
  prepared h fs o (row_of fs (attrs (after_presave o h o))).
Proof. exists 1. by rewrite after_presave_same. Qed.

Lemma prepared_evolves h h1 fs o row :
  evolves h h1 → prepared h1 fs o row → prepared h fs o row.
Proof.
  intros He [m ->]. destruct (He o) as [n ->].
  exists (m + n). by rewrite Nat.iter_add.
Qed.

Lemma Forall2_prepared_evolves h h1 fs (l : list oid) rows :
  evolves h h1 → Forall2 (prepared h1 fs) l rows → Forall2 (prepared h fs) l rows.
Proof.
  intros He. apply Forall2_impl. intros o row. by apply prepared_evolves.
Qed.

Lemma prepared_no_presave h fs o row :
  presave (h o) = None → prepared h fs o row → row = row_of fs (attrs (h o)).
Proof.
  intros Hno [n ->]. f_equal. f_equal.
  induction n as [|n IH]; [done|]. simpl. rewrite IH.
  unfold presave_step. by rewrite Hno.
Qed.

Lemma hooked_same_hooks h h' l : same_hooks h h' → hooked h' l = hooked h l.
Proof.
  intros Hs. unfold hooked. apply list_filter_iff.
  intros o. unfold has_presave. by rewrite Hs.
Qed.

Lemma hooked_app h l1 l2 : hooked h (l1 ++ l2) = hooked h l1 ++ hooked h l2.
Proof. apply list.filter_app. Qed.

Lemma call_presave_run o h :
  call_presave (Value := Value) o h
  = (Ok tt, after_presave o h, Presave <$> hooked h [o]).
Proof.
  unfold call_presave, after_presave, hooked, mbind, M_bind, get_obj. simpl.
  rewrite filter_cons, filter_nil.
  destruct (decide (has_presave h o)) as [[hook Hp]|Hno].
  - by rewrite Hp.
  - destruct (presave (h o)) eqn:Hp; [|done].
    exfalso. apply Hno. by eexists.
Qed.

Lemma prep_values_run fs o h :
  _prep_values fs o h
  = (Ok (row_of fs (attrs (after_presave o h o))), after_presave o h,
     Presave <$> hooked h [o]).
Proof.
  unfold _prep_values.
  erewrite bind_ok_ok; [| apply call_presave_run | reflexivity].
  by rewrite app_nil_r.
Qed.

Lemma mapM_prep_values_run fs l h :
  ∃ rows h',
    mapM (_prep_values fs) l h = (Ok rows, h', Presave <$> hooked h l)
    ∧ evolves h h'
    ∧ Forall2 (prepared h fs) l rows.
Proof.
  revert h. induction l as [|o l IH]; intros h.
  - exists [], h. split; [done|]. split; [apply evolves_refl | constructor].
  - destruct (IH (after_presave o h)) as (rows & h' & Hrun & Hs & Hrows).
    pose proof (evolves_after_presave o h) as He1.
    exists (row_of fs (attrs (after_presave o h o)) :: rows), h'.
    split; [|split].
    + change (mapM (_prep_values fs) (o :: l))
        with (y ← _prep_values fs o; k ← mapM (_prep_values fs) l; mret (y :: k)).
      erewrite bind_ok_ok; [| apply prep_values_run |].
      2:{ erewrite bind_ok_ok; [| apply Hrun | reflexivity]. reflexivity. }
      rewrite app_nil_r.
      rewrite (hooked_same_hooks h (after_presave o h) l)
        by by apply evolves_same_hooks.
      change (o :: l) with ([o] ++ l). by rewrite hooked_app, fmap_app.
    + by eapply evolves_trans.
    + constructor; [apply prepared_after_presave |].
      by eapply Forall2_prepared_evolves.
Qed.

Lemma object_keys_of_run fs l h :
  ∃ oks h',
    object_keys_of fs l h = (Ok oks, h', Presave <$> hooked h l)
    ∧ evolves h h'
    ∧ oks.*1 = l
    ∧ Forall2 (prepared h fs) l (oks.*2).
Proof.
  revert h. induction l as [|o l IH]; intros h.
  - exists [], h. split; [done|]. split; [apply evolves_refl | by repeat constructor].
  - destruct (IH (after_presave o h)) as (oks & h' & Hrun & Hs & Hfst & Hrows).
    pose proof (evolves_after_presave o h) as He1.
    exists ((o, row_of fs (attrs (after_presave o h o))) :: oks), h'.
    split; [|split; [|split]].
    + unfold object_keys_of in *.
      set (body := λ o, k ← _prep_values fs o; mret (o, k)) in *.
      change (mapM body (o :: l))
        with (y ← body o; k ← mapM body l; mret (y :: k)).
      erewrite bind_ok_ok.
      2:{ unfold body. erewrite bind_ok_ok; [| apply prep_values_run | reflexivity].
          reflexivity. }
      2:{ erewrite bind_ok_ok; [| apply Hrun | reflexivity]. reflexivity. }
      rewrite !app_nil_r.
      rewrite (hooked_same_hooks h (after_presave o h) l)
        by by apply evolves_same_hooks.
      change (o :: l) with ([o] ++ l). by rewrite hooked_app, fmap_app.
    + by eapply evolves_trans.
    + rewrite fmap_cons. by f_equal.
    + rewrite fmap_cons. constructor; [apply prepared_after_presave |].
      by eapply Forall2_prepared_evolves.
Qed.

End PrepFacts.

(** ** The generator of [_filter_objects] *)

Section FilterFacts.
Context {Attrs Value : Type} `{Countable Value}.
Implicit Types (h : Heap Attrs) (o : oid) (fs kf : list (Field Attrs Value)).
Implicit Types (rest : list oid) (keyset : gset (list Value)).

Lemma first_seen_sublist keyset (scan : list (oid * list Value)) :
  sublist (first_seen keyset scan) scan.
Proof.
  revert keyset. induction scan as [|ok scan IH]; intros keyset; simpl.
  - constructor.
  - destruct (decide (ok.2 ∈ keyset)).
    + by apply sublist_cons.
    + by apply sublist_skip.
Qed.

Lemma first_seen_keys keyset (scan : list (oid * list Value)) k :
  k ∈ (first_seen keyset scan).*2 ↔ k ∈ scan.*2 ∧ k ∉ keyset.
Proof.
  revert keyset. induction scan as [|[o k'] scan IH]; intros keyset; simpl.
  - rewrite elem_of_nil. naive_solver.
  - destruct (decide (k' ∈ keyset)) as [Hin|Hnin]; simpl.
    + rewrite IH, elem_of_cons. split; [naive_solver|].
      intros [[->|?] ?]; done.
    + rewrite !elem_of_cons, IH. split.
      * intros [->|[? ?]]; [by auto|]. split; [by auto|]. set_solver.
      * intros [[->|?] ?]; [by auto|].
        destruct (decide (k = k')) as [->|?]; [by auto|]. right. set_solver.
Qed.

Lemma first_seen_NoDup keyset (scan : list (oid * list Value)) :
  NoDup (first_seen keyset scan).*2.
Proof.
  revert keyset. induction scan as [|[o k] scan IH]; intros keyset; simpl.
  - constructor.
  - destruct (decide (k ∈ keyset)); simpl; [done|].
    constructor; [|done].
    rewrite first_seen_keys. set_solver.
Qed.

(** A pair is kept exactly when it has an occurrence with no equal key
    before it. *)
Lemma first_seen_elem keyset (scan : list (oid * list Value)) o k :
  (o, k) ∈ first_seen keyset scan
  ↔ (k ∉ keyset) ∧ ∃ l1 l2, scan = l1 ++ (o, k) :: l2 ∧ k ∉ l1.*2.
Proof.
  revert keyset. induction scan as [|[o' k'] scan IH]; intros keyset; simpl.
  - rewrite elem_of_nil. split; [done|].
    intros (_ & l1 & l2 & Heq & _). by destruct l1.
  - destruct (decide (k' ∈ keyset)) as [Hin|Hnin]; simpl.
    + rewrite IH. split.
      * intros (Hk & l1 & l2 & -> & Hl1). split; [done|].
        exists ((o', k') :: l1), l2. split; [done|].
        rewrite fmap_cons, not_elem_of_cons. split; [|done]. by intros ->.
      * intros (Hk & l1 & l2 & Heq & Hl1). split; [done|].
        destruct l1 as [|p l1]; simplify_eq/=; [done|].
        exists l1, l2. split; [done|]. by apply not_elem_of_cons in Hl1 as [_ ?].
    + rewrite elem_of_cons, IH. split.
      * intros [[= -> ->]|(Hk & l1 & l2 & -> & Hl1)].
        -- split; [done|]. exists [], scan. split; [done|]. apply not_elem_of_nil.
        -- split; [set_solver|].
           exists ((o', k') :: l1), l2. split; [done|].
           rewrite fmap_cons, not_elem_of_cons. split; [set_solver|done].
      * intros (Hk & l1 & l2 & Heq & Hl1).
        destruct l1 as [|p l1]; simplify_eq/=; [by left|].
        apply not_elem_of_cons in Hl1 as [? ?]. right.
        split; [set_solver|]. by exists l1, l2.
Qed.

(** Draining the generator on its own, as [list(gen)] does: the effects are
    those of preparing the key-tuple of every object in scan order, and the
    generator yields the objects whose key-tuple was not seen before. *)
Lemma filter_loop_drain kf rest keyset h :
  ∃ scan h',
    scan.*1 = rest
    ∧ mapM (_prep_values kf) rest h
      = (Ok (scan.*2), h', Presave <$> hooked h rest)
    ∧ for_gen (filter_loop kf rest keyset) mret h
      = (Ok ((first_seen keyset scan).*1), h', Presave <$> hooked h rest).
Proof.
  revert keyset h. induction rest as [|o rest IH]; intros keyset h.
  - by exists [], h.
  - set (k := row_of kf (attrs (after_presave o h o))).
    set (h1 := after_presave o h).
    assert (hooked h (o :: rest) = hooked h [o] ++ hooked h1 rest) as Hhk.
    { change (o :: rest) with ([o] ++ rest). rewrite hooked_app. f_equal.
      symmetry. apply hooked_same_hooks, evolves_same_hooks,
        evolves_after_presave. }
    destruct (decide (k ∈ keyset)) as [Hin|Hnin].
    + destruct (IH keyset h1) as (scan & h' & Hfst & Hmap & Hgen).
      exists ((o, k) :: scan), h'. split; [by rewrite fmap_cons, Hfst|]. split.
      * change (mapM (_prep_values kf) (o :: rest))
          with (y ← _prep_values kf o; ks ← mapM (_prep_values kf) rest;
                mret (y :: ks)).
        erewrite bind_ok_ok; [| apply prep_values_run |].
        2:{ erewrite bind_ok_ok; [| apply Hmap | reflexivity]. reflexivity. }
        by rewrite app_nil_r, Hhk, fmap_app.
      * simpl filter_loop. erewrite for_gen_run; [| | apply Hgen].
        2:{ erewrite bind_ok_ok; [| apply prep_values_run |].
            2:{ fold k. rewrite decide_True by done. reflexivity. }
            reflexivity. }
        simpl. rewrite decide_True by done.
        by rewrite app_nil_r, Hhk, fmap_app.
    + destruct (IH ({[k]} ∪ keyset) h1) as (scan & h' & Hfst & Hmap & Hgen).
      exists ((o, k) :: scan), h'. split; [by rewrite fmap_cons, Hfst|]. split.
      * change (mapM (_prep_values kf) (o :: rest))
          with (y ← _prep_values kf o; ks ← mapM (_prep_values kf) rest;
                mret (y :: ks)).
        erewrite bind_ok_ok; [| apply prep_values_run |].
        2:{ erewrite bind_ok_ok; [| apply Hmap | reflexivity]. reflexivity. }
        by rewrite app_nil_r, Hhk, fmap_app.
      * simpl filter_loop. erewrite for_gen_run.
        2:{ erewrite bind_ok_ok; [| apply prep_values_run |].
            2:{ fold k. rewrite decide_False by done. reflexivity. }
            reflexivity. }
        2:{ simpl for_gen. erewrite bind_ok_ok; [| reflexivity |].
            2:{ erewrite bind_ok_ok; [| apply Hgen | reflexivity]. reflexivity. }
            reflexivity. }
        simpl. rewrite decide_False by done.
        by rewrite !app_nil_r, Hhk, fmap_app.
Qed.

Lemma for_gen_filter_objects {B} objects kf (body : oid → M Attrs Value B) h :
  for_gen (_filter_objects objects kf) body h
  = for_gen (filter_loop kf (reverse objects) ∅) body h.
Proof.
  unfold _filter_objects. simpl.
  by destruct (for_gen _ body h) as [[r h2] ev2].
Qed.

(** The generator consumed by the list comprehension of [_insert_many]:
    every object of the scan has its key-tuple prepared, the ones yielded
    ([surv]) are then prepared again for the insert. *)
Lemma filter_loop_insert kf fs rest keyset h :
  ∃ surv rows h' ps,
    for_gen (filter_loop kf rest keyset) (_prep_values fs) h
    = (Ok rows, h', Presave <$> ps)
    ∧ ps ≡ₚ hooked h rest ++ hooked h surv
    ∧ evolves h h'
    ∧ sublist surv rest
    ∧ Forall2 (prepared h fs) surv rows.
Proof.
  revert keyset h. induction rest as [|o rest IH]; intros keyset h.
  - exists [], [], h, []. split; [done|]. split; [done|].
    split; [apply evolves_refl|]. split; constructor.
  - set (h1 := after_presave o h).
    set (k := row_of kf (attrs (h1 o))).
    pose proof (evolves_after_presave o h) as He1. fold h1 in He1.
    pose proof (evolves_same_hooks _ _ He1) as Hs1.
    destruct (decide (k ∈ keyset)) as [Hin|Hnin].
    + destruct (IH keyset h1) as (surv & rows & h' & ps & Hgen & Hps & Hs & Hsub & Hrows).
      exists surv, rows, h', (hooked h [o] ++ ps).
      split; [|split; [|split; [|split]]].
      * simpl filter_loop. erewrite for_gen_run; [| | apply Hgen].
        2:{ erewrite bind_ok_ok; [| apply prep_values_run |].
            2:{ fold h1 k. rewrite decide_True by done. reflexivity. }
            reflexivity. }
        by rewrite app_nil_r, fmap_app.
      * rewrite Hps, !(hooked_same_hooks h h1) by done.
        change (o :: rest) with ([o] ++ rest). rewrite hooked_app.
        by rewrite (assoc_L (++)).
      * by eapply evolves_trans.
      * by apply sublist_cons.
      * by eapply Forall2_prepared_evolves.
    + set (h2 := after_presave o h1).
      pose proof (evolves_after_presave o h1) as He2. fold h2 in He2.
      pose proof (evolves_trans _ _ _ He1 He2) as He12.
      pose proof (evolves_same_hooks _ _ He12) as Hs12.
      destruct (IH ({[k]} ∪ keyset) h2)
        as (surv & rows & h' & ps & Hgen & Hps & Hs & Hsub & Hrows).
      exists (o :: surv), (row_of fs (attrs (h2 o)) :: rows), h',
        (hooked h [o] ++ hooked h [o] ++ ps).
      split; [|split; [|split; [|split]]].
      * simpl filter_loop. erewrite for_gen_run.
        2:{ erewrite bind_ok_ok; [| apply prep_values_run |].
            2:{ fold h1 k. rewrite decide_False by done. reflexivity. }
            reflexivity. }
        2:{ simpl for_gen. erewrite bind_ok_ok; [| apply prep_values_run |].
            2:{ erewrite bind_ok_ok; [| apply Hgen | reflexivity]. reflexivity. }
            reflexivity. }
        rewrite !app_nil_r, !fmap_app.
        by rewrite (hooked_same_hooks h h1 [o]) by done.
      * rewrite Hps, !(hooked_same_hooks h h2) by done.
        change (o :: rest) with ([o] ++ rest).
        change (o :: surv) with ([o] ++ surv). rewrite !hooked_app.
        solve_Permutation.
      * by eapply evolves_trans.
      * by apply sublist_skip.
      * constructor.
        -- eapply prepared_evolves; [apply He1|]. apply prepared_after_presave.
        -- by eapply Forall2_prepared_evolves.
Qed.

End FilterFacts.

(** ** The private helpers *)

Section HelperFacts.
Context {Attrs Value : Type} `{Countable Value}.
Context (quote_name : string → string).
Implicit Types (h : Heap Attrs) (o : oid) (model : Model Attrs Value).
Implicit Types (objects : list oid) (keys : list string).

Lemma keys_or_nonempty (keys : option (list string)) (d : list string) :
  d ≠ [] → keys_or keys d ≠ [].
Proof. by destruct keys as [[|k ks]|]. Qed.

Lemma keys_or_resolved (ks d : list string) : ks ≠ [] → keys_or (Some ks) d = ks.
Proof. by destruct ks. Qed.

Lemma keys_or_idem (keys : option (list string)) (d : list string) :
  d ≠ [] → keys_or (Some (keys_or keys d)) d = keys_or keys d.
Proof. intros Hd. by apply keys_or_resolved, keys_or_nonempty. Qed.

Lemma insert_many_list_nil model h :
  _insert_many quote_name model (PyList []) h = (Ok tt, h, []).
Proof. done. Qed.

Lemma insert_many_list_run model objects h :
  objects ≠ [] →
  ∃ rows h',
    _insert_many quote_name model (PyList objects) h
    = (Ok tt, h',
       (Presave <$> hooked h objects)
         ++ [ExecuteMany (insert_sql quote_name model) rows])
    ∧ evolves h h'
    ∧ Forall2 (prepared h (_model_fields model)) objects rows.
Proof.
  intros Hne.
  destruct (mapM_prep_values_run (_model_fields model) objects h)
    as (rows & h' & Hrun & Hs & Hrows).
  exists rows, h'. split; [|done].
  unfold _insert_many. destruct objects as [|o objects]; [done|].
  cbn [truthy negb]. unfold for_each.
  erewrite bind_ok_ok; [| apply Hrun | reflexivity]. done.
Qed.

Lemma insert_many_gen_run model objects (kf : list (Field Attrs Value)) h :
  ∃ surv rows h' ps,
    _insert_many quote_name model (PyGen (_filter_objects objects kf)) h
    = (Ok tt, h',
       (Presave <$> ps) ++ [ExecuteMany (insert_sql quote_name model) rows])
    ∧ ps ≡ₚ hooked h objects ++ hooked h surv
    ∧ evolves h h'
    ∧ sublist surv (reverse objects)
    ∧ Forall2 (prepared h (_model_fields model)) surv rows.
Proof.
  destruct (filter_loop_insert kf (_model_fields model) (reverse objects) ∅ h)
    as (surv & rows & h' & ps & Hgen & Hps & Hs & Hsub & Hrows).
  exists surv, rows, h', ps. split; [|split; [|done]].
  - unfold _insert_many. cbn [truthy negb]. unfold for_each.
    erewrite bind_ok_ok; [| by rewrite for_gen_filter_objects | reflexivity].
    done.
  - rewrite Hps. unfold hooked at 1. rewrite filter_reverse.
    by rewrite reverse_Permutation.
Qed.

Lemma update_many_nil model (keys : option (list string)) h :
  _update_many quote_name model [] keys h = (Ok tt, h, []).
Proof. done. Qed.

Lemma update_many_no_key model objects (keys : option (list string)) h :
  objects ≠ [] →
  key_fields_of model (keys_or keys [pk_name model]) = [] →
  _update_many quote_name model objects keys h
  = (Raise (AssertionError "Empty key fields"), h, []).
Proof.
  intros Hne Hkf. unfold _update_many.
  rewrite bool_decide_false by done. rewrite Hkf. done.
Qed.

Lemma update_many_run model objects (keys : option (list string)) h :
  objects ≠ [] →
  key_fields_of model (keys_or keys [pk_name model]) ≠ [] →
  ∃ rows h',
    _update_many quote_name model objects keys h
    = (Ok tt, h',
       (Presave <$> hooked h objects)
         ++ [ExecuteMany
               (update_sql quote_name model (keys_or keys [pk_name model]))
               rows])
    ∧ evolves h h'
    ∧ Forall2
        (prepared h
           (value_fields_of model (keys_or keys [pk_name model])
              ++ key_fields_of model (keys_or keys [pk_name model])))
        objects rows.
Proof.
  intros Hne Hkf.
  set (ks := keys_or keys [pk_name model]) in *.
  destruct (mapM_prep_values_run
              (value_fields_of model ks ++ key_fields_of model ks) objects h)
    as (rows & h' & Hrun & Hs & Hrows).
  exists rows, h'. split; [|done].
  unfold _update_many. fold ks.
  rewrite bool_decide_false by done.
  rewrite (bool_decide_true (key_fields_of model ks ≠ [])) by done.
  unfold assert.
  erewrite bind_ok_ok; [| reflexivity |].
  2:{ erewrite bind_ok_ok; [| apply Hrun | reflexivity]. reflexivity. }
  done.
Qed.

End HelperFacts.

(** ** The public operations *)

Section PublicFacts.
Context {Attrs Value : Type} `{Countable Value}.
Context (quote_name : string → string).
Context (fetchall : string → list Value → list (list Value)).
Context (managed : bool).
Implicit Types (h : Heap Attrs) (o : oid) (model : Model Attrs Value).
Implicit Types (objects : list oid) (keys : option (list string)).

Lemma commit_unless_managed_run h :
  commit_unless_managed (Value := Value) managed h
  = (Ok tt, h, if managed then [] else [Commit]).
Proof. unfold commit_unless_managed. by destruct managed. Qed.

(** The phases of a successful [insert_or_update_many]: the key-tuples
    [oks], the rows [urows] of the update, the objects [surv] that the
    deduplicator yields and the rows [rows] inserted for them. *)
Lemma upsert_run model objects keys (skip_update : bool) h :
  let ks := keys_or keys [pk_name model] in
  let kf := key_fields_of model ks in
  let sql := select_sql quote_name model ks (length objects) in
  objects ≠ [] → kf ≠ [] →
  ∃ oks h1 urows surv rows h' ps,
    object_keys_of kf objects h = (Ok oks, h1, Presave <$> hooked h objects)
    ∧ oks.*1 = objects
    ∧ Forall2 (prepared h kf) objects (oks.*2)
    ∧ evolves h h'
    ∧ let existing : gset (list Value) :=
        list_to_set (fetchall sql (concat (oks.*2))) in
      let upd := update_objects_of oks existing in
      let ins := insert_objects_of oks existing in
      (skip_update = false →
       Forall2 (prepared h (value_fields_of model ks ++ kf)) upd urows)
      ∧ ps ≡ₚ hooked h ins ++ hooked h surv
      ∧ sublist surv (reverse ins)
      ∧ Forall2 (prepared h (_model_fields model)) surv rows
      ∧ insert_or_update_many quote_name fetchall managed model objects keys
          skip_update h
        = (Ok tt, h',
           (Presave <$> hooked h objects)
             ++ [Execute sql (concat (oks.*2))]
             ++ (if skip_update then []
                 else (Presave <$> hooked h upd)
                        ++ (if decide (upd = []) then []
                            else [ExecuteMany (update_sql quote_name model ks)
                                    urows]))
             ++ (Presave <$> ps)
             ++ [ExecuteMany (insert_sql quote_name model) rows]
             ++ (if managed then [] else [Commit])).
Proof.
  intros ks kf sql Hne Hkf.
  destruct (object_keys_of_run kf objects h) as (oks & h1 & Hrun1 & He1 & Hfst & Hks).
  pose proof (evolves_same_hooks _ _ He1) as Hs1.
  set (existing := list_to_set (fetchall sql (concat (oks.*2))) : gset (list Value)).
  set (upd := update_objects_of oks existing).
  set (ins := insert_objects_of oks existing).
  (* the update phase *)
  assert (∃ urows h2,
    (if negb skip_update
     then _update_many quote_name model upd (Some ks)
     else mret tt) h1
    = (Ok tt, h2,
       if skip_update then []
       else (Presave <$> hooked h upd)
              ++ (if decide (upd = []) then []
                  else [ExecuteMany (update_sql quote_name model ks) urows]))
    ∧ evolves h h2
    ∧ (skip_update = false →
       Forall2 (prepared h (value_fields_of model ks ++ kf)) upd urows))
    as (urows & h2 & Hrun2 & He2 & Hurows).
  { destruct skip_update; simpl.
    - exists [], h1. by split.
    - destruct (decide (upd = [])) as [Hupd|Hupd].
      + exists [], h1. rewrite Hupd. split; [done|]. split; [done|].
        intros _. constructor.
      + assert (keys_or (Some ks) [pk_name model] = ks) as Hks'
          by (by apply keys_or_idem).
        destruct (update_many_run quote_name model upd (Some ks) h1)
          as (urows & h2 & Hrun & He & Hrows); [done|by rewrite Hks'|].
        rewrite Hks' in Hrun, Hrows.
        exists urows, h2. rewrite Hrun.
        rewrite (hooked_same_hooks h h1) by done.
        split; [done|]. split; [by eapply evolves_trans|].
        intros _. by eapply Forall2_prepared_evolves. }
  pose proof (evolves_same_hooks _ _ He2) as Hs2.
  (* the insert phase *)
  destruct (insert_many_gen_run quote_name model ins kf h2)
    as (surv & rows & h' & ps & Hrun3 & Hps & He3 & Hsub & Hrows).
  rewrite !(hooked_same_hooks h h2) in Hps by done.
  exists oks, h1, urows, surv, rows, h', ps.
  split; [done|]. split; [done|]. split; [done|].
  split; [by eapply evolves_trans|].
  fold existing upd ins. split; [done|]. split; [done|]. split; [done|].
  split; [by eapply Forall2_prepared_evolves|].
  unfold insert_or_update_many. fold ks kf sql.
  rewrite bool_decide_false by done.
  rewrite (bool_decide_true (kf ≠ [])) by done. unfold assert.
  erewrite bind_ok_ok; [| reflexivity |].
  2:{ erewrite bind_ok_ok; [| apply Hrun1 |].
      2:{ erewrite bind_ok_ok; [| reflexivity |].
          2:{ fold existing upd ins.
              erewrite bind_ok_ok; [| apply Hrun2 |].
              2:{ erewrite bind_ok_ok; [| apply Hrun3 |].
                  2:{ apply commit_unless_managed_run. }
                  reflexivity. }
              reflexivity. }
          reflexivity. }
      reflexivity. }
  simpl. by rewrite <- !(assoc_L (++)).
Qed.

End PublicFacts.

(** ** The two sub-batches *)

Section PartitionFacts.
Context {Value : Type} `{Countable Value}.
Implicit Types (oks : list (oid * list Value)) (existing : gset (list Value)).

Lemma update_objects_elem oks existing o :
  o ∈ update_objects_of oks existing ↔ ∃ k, (o, k) ∈ oks ∧ k ∈ existing.
Proof.
  unfold update_objects_of. rewrite list_elem_of_fmap. split.
  - intros ([o' k] & -> & [Hk Hin]%list_elem_of_filter). by exists k.
  - intros (k & Hin & Hk). exists (o, k). split; [done|].
    by apply list_elem_of_filter.
Qed.

Lemma insert_objects_elem oks existing o :
  o ∈ insert_objects_of oks existing ↔ ∃ k, (o, k) ∈ oks ∧ k ∉ existing.
Proof.
  unfold insert_objects_of. rewrite list_elem_of_fmap. split.
  - intros ([o' k] & -> & [Hk Hin]%list_elem_of_filter). by exists k.
  - intros (k & Hin & Hk). exists (o, k). split; [done|].
    by apply list_elem_of_filter.
Qed.

Lemma candidates_permutation oks existing :
  update_objects_of oks existing ++ insert_objects_of oks existing ≡ₚ oks.*1.
Proof.
  unfold update_objects_of, insert_objects_of.
  rewrite <- fmap_app. f_equiv.
  apply (filter_app_complement (λ ok : oid * list Value, ok.2 ∈ existing)).
Qed.

Lemma sublist_reverse_mono {A} (l1 l2 : list A) :
  sublist l1 l2 → sublist (reverse l1) (reverse l2).
Proof.
  induction 1 as [|x l1 l2 Hsub IH|x l1 l2 Hsub IH]; [done| |].
  - rewrite !reverse_cons. by apply sublist_app.
  - rewrite reverse_cons. by apply sublist_inserts_r.
Qed.

Lemma insert_objects_sublist oks existing :
  sublist (insert_objects_of oks existing) (oks.*1).
Proof. unfold insert_objects_of. apply (fmap_sublist fst), sublist_filter. Qed.


Lemma insert_objects_none oks existing :
  (∀ k, k ∈ oks.*2 → k ∈ existing) → insert_objects_of oks existing = [].
Proof.
  intros Hall. unfold insert_objects_of.
  induction oks as [|[o k] oks IH]; [done|].
  rewrite filter_cons_False.
  - apply IH. intros k' Hk'. apply Hall. rewrite fmap_cons. by right.
  - simpl. intros Hk. apply Hk, Hall. rewrite fmap_cons. by left.
Qed.

Lemma update_objects_none oks :
  update_objects_of oks (∅ : gset (list Value)) = []
  ∧ insert_objects_of oks (∅ : gset (list Value)) = oks.*1.
Proof.
  unfold update_objects_of, insert_objects_of.
  induction oks as [|ok oks [IH1 IH2]]; [done|]. split.
  - rewrite filter_cons_False; [done|]. set_solver.
  - rewrite filter_cons_True; [|set_solver]. rewrite !fmap_cons. by f_equal.
Qed.

End PartitionFacts.

(** ** Records without a [presave] method *)

Section NoHookFacts.
Context {Attrs Value : Type}.
Implicit Types (h : Heap Attrs) (o : oid) (fs : list (Field Attrs Value)).

Lemma hooked_count h (l : list oid) o :
  has_presave h o →
  length (filter (λ x, x = o) (hooked h l)) = length (filter (λ x, x = o) l).
Proof.
  intros Ho. unfold hooked. induction l as [|x l IH]; [done|].
  destruct (decide (x = o)) as [->|Hne].
  - rewrite (filter_cons_True (has_presave h)) by done.
    rewrite !filter_cons_True by done. simpl. by rewrite IH.
  - rewrite (filter_cons_False (λ x, x = o) x l) by done.
    destruct (decide (has_presave h x)).
    + rewrite (filter_cons_True (has_presave h)) by done.
      by rewrite filter_cons_False by done.
    + by rewrite (filter_cons_False (has_presave h)) by done.
Qed.

Lemma prep_values_no_hook fs o h :
  presave (h o) = None →
  _prep_values fs o h = (Ok (row_of fs (attrs (h o))), h, []).
Proof.
  intros Hno. rewrite prep_values_run.
  unfold after_presave, hooked. rewrite Hno.
  rewrite filter_cons_False, filter_nil; [done|].
  unfold has_presave. rewrite Hno. by intros [? ?].
Qed.

End NoHookFacts.

(** ** Two records with one key on an empty table *)

Section SameKeyPair.
Context {Attrs Value : Type} `{Countable Value}.
Context (quote_name : string → string).
Context (fetchall : string → list Value → list (list Value)).
Context (managed : bool).
Implicit Types (h : Heap Attrs) (o : oid) (model : Model Attrs Value).

Lemma for_gen_yield {B} (a : oid) (rest : Gen Attrs Value oid)
    (body : oid → M Attrs Value B) :
  for_gen (GYield a rest) body
  = (b ← body a; bs ← for_gen rest body; mret (b :: bs)).
Proof. done. Qed.

Lemma filter_loop_cons (kf : list (Field Attrs Value)) o (rest : list oid)
    (keyset : gset (list Value)) :
  filter_loop kf (o :: rest) keyset
  = GRun (okeys ← _prep_values kf o;
          if decide (okeys ∈ keyset)
          then mret (filter_loop kf rest keyset)
          else mret (GYield o (filter_loop kf rest ({[okeys]} ∪ keyset)))).
Proof. done. Qed.

Lemma upsert_same_key_pair model keys (skip_update : bool) h o1 o2 :
  let ks := keys_or keys [pk_name model] in
  let kf := key_fields_of model ks in
  kf ≠ [] →
  presave (h o1) = None → presave (h o2) = None →
  row_of kf (attrs (h o1)) = row_of kf (attrs (h o2)) →
  (∀ sql params, fetchall sql params = []) →
  insert_or_update_many quote_name fetchall managed model [o1; o2] keys
    skip_update h
  = (Ok tt, h,
     [Execute (select_sql quote_name model ks 2)
        (row_of kf (attrs (h o1)) ++ row_of kf (attrs (h o2)));
      ExecuteMany (insert_sql quote_name model)
        [row_of (_model_fields model) (attrs (h o2))]]
       ++ (if managed then [] else [Commit])).
Proof.
  intros ks kf Hkf Hn1 Hn2 Hk Hempty.
  set (k1 := row_of kf (attrs (h o1))) in *.
  set (k2 := row_of kf (attrs (h o2))) in *.
  set (oks := [(o1, k1); (o2, k2)]).
  assert (object_keys_of kf [o1; o2] h = (Ok oks, h, [])) as Hrun1.
  { unfold object_keys_of.
    set (body := λ o, k ← _prep_values kf o; mret (o, k)).
    assert (∀ o, presave (h o) = None →
                 body o h = (Ok (o, row_of kf (attrs (h o))), h, [])) as Hbody.
    { intros o Ho. unfold body.
      erewrite bind_ok_ok; [| by apply prep_values_no_hook | reflexivity]. done. }
    change (mapM body [o1; o2])
      with (y1 ← body o1; l ← (y2 ← body o2; l ← mret []; mret (y2 :: l));
            mret (y1 :: l)).
    erewrite bind_ok_ok; [| by apply Hbody |].
    2:{ erewrite bind_ok_ok; [| | reflexivity].
        2:{ erewrite bind_ok_ok; [| by apply Hbody | reflexivity]. reflexivity. }
        reflexivity. }
    done. }
  assert (∀ sql, (list_to_set (fetchall sql (concat (oks.*2))) : gset (list Value))
                 = ∅) as Hexisting.
  { intros sql. by rewrite Hempty. }
  assert (_insert_many quote_name model (PyGen (_filter_objects [o1; o2] kf)) h
          = (Ok tt, h,
             [ExecuteMany (insert_sql quote_name model)
                [row_of (_model_fields model) (attrs (h o2))]])) as Hrun3.
  { unfold _insert_many. cbn [truthy negb]. unfold for_each.
    erewrite bind_ok_ok; [| | reflexivity].
    2:{ rewrite for_gen_filter_objects.
        change (reverse [o1; o2]) with [o2; o1]. rewrite filter_loop_cons.
        erewrite for_gen_run.
        2:{ erewrite bind_ok_ok; [| by apply prep_values_no_hook |].
            2:{ fold k2. rewrite decide_False by set_solver. reflexivity. }
            reflexivity. }
        2:{ rewrite for_gen_yield.
            erewrite bind_ok_ok; [| by apply prep_values_no_hook |].
            2:{ erewrite bind_ok_ok; [| | reflexivity].
                2:{ rewrite filter_loop_cons. erewrite for_gen_run.
                    2:{ erewrite bind_ok_ok; [| by apply prep_values_no_hook |].
                        2:{ fold k1. rewrite decide_True by set_solver.
                            reflexivity. }
                        reflexivity. }
                    2:{ reflexivity. }
                    reflexivity. }
                reflexivity. }
            reflexivity. }
        reflexivity. }
    done. }
  unfold insert_or_update_many. fold ks kf.
  rewrite bool_decide_false by done.
  rewrite (bool_decide_true (kf ≠ [])) by done. unfold assert.
  erewrite bind_ok_ok; [| reflexivity |].
  2:{ erewrite bind_ok_ok; [| apply Hrun1 |].
      2:{ erewrite bind_ok_ok; [| reflexivity |].
          2:{ rewrite Hexisting.
              destruct (update_objects_none oks) as [-> ->].
              erewrite bind_ok_ok.
              2:{ instantiate (1 := []). instantiate (1 := h).
                  instantiate (1 := tt). by destruct skip_update. }
              2:{ erewrite bind_ok_ok; [| apply Hrun3 |].
                  2:{ apply commit_unless_managed_run. }
                  reflexivity. }
              reflexivity. }
          reflexivity. }
      reflexivity. }
  simpl. by rewrite app_nil_r.
Qed.

End SameKeyPair.

(** ** What the deduplicator yields to the insert *)

Section EmissionFacts.
Context {Attrs Value : Type} `{Countable Value}.
Context (quote_name : string → string).
Context (fetchall : string → list Value → list (list Value)).
Context (managed : bool).
Implicit Types (h : Heap Attrs) (o : oid) (fs kf : list (Field Attrs Value)).
Implicit Types (model : Model Attrs Value) (keyset : gset (list Value)).

(** The generator consumed by the loop of [_insert_many]: with [scan] the
    records of [rest] paired with the key-tuples prepared for them, the
    records yielded are those of [first_seen keyset scan], and a row is
    prepared for each of them as it is yielded. *)
Lemma filter_loop_emits kf fs (rest : list oid) keyset h :
  ∃ scan rows h' ps,
    scan.*1 = rest
    ∧ Forall2 (prepared h kf) rest (scan.*2)
    ∧ for_gen (filter_loop kf rest keyset) (_prep_values fs) h
      = (Ok rows, h', Presave <$> ps)
    ∧ ps ≡ₚ hooked h rest ++ hooked h (first_seen keyset scan).*1
    ∧ evolves h h'
    ∧ Forall2 (prepared h fs) (first_seen keyset scan).*1 rows.
Proof.
  revert keyset h. induction rest as [|o rest IH]; intros keyset h.
  - exists [], [], h, []. split; [done|]. split; [constructor|].
    split; [done|]. split; [done|]. split; [apply evolves_refl|constructor].
  - set (h1 := after_presave o h).
    set (k := row_of kf (attrs (h1 o))).
    pose proof (evolves_after_presave o h) as He1. fold h1 in He1.
    pose proof (evolves_same_hooks _ _ He1) as Hs1.
    assert (prepared h kf o k) as Hk by apply prepared_after_presave.
    destruct (decide (k ∈ keyset)) as [Hin|Hnin].
    + destruct (IH keyset h1)
        as (scan & rows & h' & ps & Hfst & Hkeys & Hgen & Hps & He & Hrows).
      exists ((o, k) :: scan), rows, h', (hooked h [o] ++ ps).
      cbn [first_seen snd]. rewrite decide_True by done.
      split; [by rewrite fmap_cons, Hfst|].
      split; [rewrite fmap_cons; constructor;
              [done | by eapply Forall2_prepared_evolves]|].
      split; [|split; [|split]].
      * rewrite filter_loop_cons. erewrite for_gen_run; [| | apply Hgen].
        2:{ erewrite bind_ok_ok; [| apply prep_values_run |].
            2:{ fold h1 k. rewrite decide_True by done. reflexivity. }
            reflexivity. }
        by rewrite app_nil_r, fmap_app.
      * rewrite Hps, !(hooked_same_hooks h h1) by done.
        change (o :: rest) with ([o] ++ rest). rewrite hooked_app.
        by rewrite (assoc_L (++)).
      * by eapply evolves_trans.
      * by eapply Forall2_prepared_evolves.
    + set (h2 := after_presave o h1).
      pose proof (evolves_after_presave o h1) as He2. fold h2 in He2.
      pose proof (evolves_trans _ _ _ He1 He2) as He12.
      pose proof (evolves_same_hooks _ _ He12) as Hs12.
      destruct (IH ({[k]} ∪ keyset) h2)
        as (scan & rows & h' & ps & Hfst & Hkeys & Hgen & Hps & He & Hrows).
      exists ((o, k) :: scan), (row_of fs (attrs (h2 o)) :: rows), h',
        (hooked h [o] ++ hooked h [o] ++ ps).
      cbn [first_seen snd]. rewrite decide_False by done.
      split; [by rewrite fmap_cons, Hfst|].
      split; [rewrite fmap_cons; constructor;
              [done | by eapply Forall2_prepared_evolves]|].
      split; [|split; [|split]].
      * rewrite filter_loop_cons. erewrite for_gen_run.
        2:{ erewrite bind_ok_ok; [| apply prep_values_run |].
            2:{ fold h1 k. rewrite decide_False by done. reflexivity. }
            reflexivity. }
        2:{ rewrite for_gen_yield.
            erewrite bind_ok_ok; [| apply prep_values_run |].
            2:{ fold h2. erewrite bind_ok_ok; [| apply Hgen | reflexivity].
                reflexivity. }
            reflexivity. }
        rewrite !app_nil_r, !fmap_app.
        by rewrite (hooked_same_hooks h h1 [o]) by done.
      * rewrite Hps, !(hooked_same_hooks h h2) by done.
        rewrite fmap_cons. cbn [fst].
        change (o :: rest) with ([o] ++ rest).
        change (o :: (first_seen ({[k]} ∪ keyset) scan).*1)
          with ([o] ++ (first_seen ({[k]} ∪ keyset) scan).*1).
        rewrite !hooked_app. solve_Permutation.
      * by eapply evolves_trans.
      * rewrite fmap_cons. cbn [fst]. constructor.
        -- eapply prepared_evolves; [apply He1|]. apply prepared_after_presave.
        -- by eapply Forall2_prepared_evolves.
Qed.

Lemma insert_many_gen_emits model (objects : list oid) kf h :
  ∃ scan rows h' ps,
    scan.*1 = reverse objects
    ∧ Forall2 (prepared h kf) (reverse objects) (scan.*2)
    ∧ _insert_many quote_name model (PyGen (_filter_objects objects kf)) h
      = (Ok tt, h',
         (Presave <$> ps) ++ [ExecuteMany (insert_sql quote_name model) rows])
    ∧ ps ≡ₚ hooked h objects ++ hooked h (first_seen ∅ scan).*1
    ∧ evolves h h'
    ∧ Forall2 (prepared h (_model_fields model)) (first_seen ∅ scan).*1 rows.
Proof.
  destruct (filter_loop_emits kf (_model_fields model) (reverse objects) ∅ h)
    as (scan & rows & h' & ps & Hfst & Hkeys & Hgen & Hps & He & Hrows).
  exists scan, rows, h', ps.
  split; [done|]. split; [done|]. split; [|split; [|done]].
  - unfold _insert_many. cbn [truthy negb]. unfold for_each.
    erewrite bind_ok_ok; [| by rewrite for_gen_filter_objects | reflexivity].
    done.
  - rewrite Hps. unfold hooked at 1. rewrite filter_reverse.
    by rewrite reverse_Permutation.
Qed.

(** The phases of a successful [insert_or_update_many], with the records
    the deduplicator yields to the insert: those of [first_seen ∅ scan],
    where [scan] pairs the reversed insert-candidates with the key-tuples
    the deduplicator prepares for them. *)
Lemma upsert_emits model (objects : list oid) keys (skip_update : bool) h :
  let ks := keys_or keys [pk_name model] in
  let kf := key_fields_of model ks in
  let sql := select_sql quote_name model ks (length objects) in
  objects ≠ [] → kf ≠ [] →
  ∃ oks h1 urows scan rows h' ps,
    object_keys_of kf objects h = (Ok oks, h1, Presave <$> hooked h objects)
    ∧ oks.*1 = objects
    ∧ let existing : gset (list Value) :=
        list_to_set (fetchall sql (concat (oks.*2))) in
      let upd := update_objects_of oks existing in
      let ins := insert_objects_of oks existing in
      let emitted := (first_seen ∅ scan).*1 in
      scan.*1 = reverse ins
      ∧ Forall2 (prepared h kf) (reverse ins) (scan.*2)
      ∧ ps ≡ₚ hooked h ins ++ hooked h emitted
      ∧ Forall2 (prepared h (_model_fields model)) emitted rows
      ∧ insert_or_update_many quote_name fetchall managed model objects keys
          skip_update h
        = (Ok tt, h',
           (Presave <$> hooked h objects)
             ++ [Execute sql (concat (oks.*2))]
             ++ (if skip_update then []
                 else (Presave <$> hooked h upd)
                        ++ (if decide (upd = []) then []
                            else [ExecuteMany (update_sql quote_name model ks)
                                    urows]))
             ++ (Presave <$> ps)
             ++ [ExecuteMany (insert_sql quote_name model) rows]
             ++ (if managed then [] else [Commit])).
Proof.
  intros ks kf sql Hne Hkf.
  destruct (object_keys_of_run kf objects h)
    as (oks & h1 & Hrun1 & He1 & Hfst & Hks).
  pose proof (evolves_same_hooks _ _ He1) as Hs1.
  set (existing := list_to_set (fetchall sql (concat (oks.*2)))
         : gset (list Value)).
  set (upd := update_objects_of oks existing).
  set (ins := insert_objects_of oks existing).
  assert (∃ urows h2,
    (if negb skip_update
     then _update_many quote_name model upd (Some ks)
     else mret tt) h1
    = (Ok tt, h2,
       if skip_update then []
       else (Presave <$> hooked h upd)
              ++ (if decide (upd = []) then []
                  else [ExecuteMany (update_sql quote_name model ks) urows]))
    ∧ evolves h h2) as (urows & h2 & Hrun2 & He2).
  { destruct skip_update; simpl.
    - exists [], h1. by split.
    - destruct (decide (upd = [])) as [Hupd|Hupd].
      + exists [], h1. rewrite Hupd. by split.
      + assert (keys_or (Some ks) [pk_name model] = ks) as Hks'
          by (by apply keys_or_idem).
        destruct (update_many_run quote_name model upd (Some ks) h1)
          as (urows & h2 & Hrun & He & Hrows); [done|by rewrite Hks'|].
        rewrite Hks' in Hrun.
        exists urows, h2. rewrite Hrun.
        rewrite (hooked_same_hooks h h1) by done.
        split; [done|]. by eapply evolves_trans. }
  pose proof (evolves_same_hooks _ _ He2) as Hs2.
  destruct (insert_many_gen_emits model ins kf h2)
    as (scan & rows & h' & ps & Hscan & Hkeys & Hrun3 & Hps & He3 & Hrows).
  rewrite !(hooked_same_hooks h h2) in Hps by done.
  exists oks, h1, urows, scan, rows, h', ps.
  split; [done|]. split; [done|]. cbv zeta. fold existing upd ins.
  split; [done|]. split; [by eapply Forall2_prepared_evolves|].
  split; [done|]. split; [by eapply Forall2_prepared_evolves|].
  unfold insert_or_update_many. fold ks kf sql.
  rewrite bool_decide_false by done.
  rewrite (bool_decide_true (kf ≠ [])) by done. unfold assert.
  erewrite bind_ok_ok; [| reflexivity |].
  2:{ erewrite bind_ok_ok; [| apply Hrun1 |].
      2:{ erewrite bind_ok_ok; [| reflexivity |].
          2:{ fold existing upd ins.
              erewrite bind_ok_ok; [| apply Hrun2 |].
              2:{ erewrite bind_ok_ok; [| apply Hrun3 |].
                  2:{ apply commit_unless_managed_run. }
                  reflexivity. }
              reflexivity. }
          reflexivity. }
      reflexivity. }
  simpl. by rewrite <- !(assoc_L (++)).
Qed.

Lemma first_seen_sublist_fst keyset (scan : list (oid * list Value)) :
  sublist (first_seen keyset scan).*1 (scan.*1).
Proof. apply (fmap_sublist fst), first_seen_sublist. Qed.

Lemma first_seen_empty_elem (scan : list (oid * list Value)) o k :
  (o, k) ∈ first_seen ∅ scan
  ↔ ∃ l1 l2, scan = l1 ++ (o, k) :: l2 ∧ k ∉ l1.*2.
Proof. rewrite first_seen_elem. set_solver. Qed.

Lemma first_seen_empty_keys (scan : list (oid * list Value)) k :
  k ∈ (first_seen ∅ scan).*2 ↔ k ∈ scan.*2.
Proof. rewrite first_seen_keys. set_solver. Qed.

(** The first record scanned is always yielded. *)
Lemma first_seen_empty_head (scan : list (oid * list Value)) o (l : list oid) :
  scan.*1 = o :: l → ∃ l', (first_seen ∅ scan).*1 = o :: l'.
Proof.
  destruct scan as [|[o' k] scan]; [done|]. rewrite fmap_cons. cbn [fst].
  intros [= -> _]. cbn [first_seen snd].
  rewrite decide_False by set_solver. rewrite fmap_cons. by eexists.
Qed.

End EmissionFacts.

(** * Main results *)

Section Results.
Context {Attrs Value : Type} `{Countable Value}.
Context (quote_name : string → string).
Context (fetchall : string → list Value → list (list Value)).
Context (managed : bool).
Implicit Types (h : Heap Attrs) (o : oid) (model : Model Attrs Value).
Implicit Types (objects : list oid) (keys : option (list string)).


(** C3.  The statement that [update_many] executes has a SET clause with
    the fields that are not auto-generated and not in the key set, and a
    WHERE clause with the fields of the key set, both in declaration order;
    every row of parameters holds the values of the SET fields followed by
    the values of the WHERE fields, all read from one state of the
    record. *)
Theorem update_statement_shape model objects keys h :
  let ks := keys_or keys [pk_name model] in
  let set_fields :=
    filter (λ f, negb (is_auto f) ∧ name f ∉ ks) (fields model) in
  let where_fields := filter (λ f, name f ∈ ks) (fields model) in
  objects ≠ [] → where_fields ≠ [] →
  ∃ rows h',
    update_many quote_name managed model objects keys h
    = (Ok tt, h',
       (Presave <$> hooked h objects)
         ++ [ExecuteMany
               ("UPDATE " +:+ db_table model
                  +:+ " SET "
                  +:+ join "," (map (λ f, quote_name (column f) +:+ "=%s")
                                  set_fields)
                  +:+ " WHERE "
                  +:+ join " AND " (map (λ f, quote_name (column f) +:+ "=%s")
                                      where_fields))
               rows]
         ++ (if managed then [] else [Commit]))
    ∧ Forall2
        (λ o row, ∃ n,
           let a := attrs (Nat.iter n presave_step (h o)) in
           row = map (λ f, db_prep_save f a) set_fields
                   ++ map (λ f, db_prep_save f a) where_fields)
        objects rows
    ∧ Forall (λ row, length row = length set_fields + length where_fields) rows.
Proof.
  intros ks set_fields where_fields Hne Hkf.
  assert (value_fields_of model ks = set_fields) as Hvf.
  { unfold value_fields_of, _model_fields, set_fields.
    rewrite list_filter_filter. apply list_filter_iff. intros f. tauto. }
  destruct (update_many_run quote_name model objects keys h Hne Hkf)
    as (rows & h' & Hrun & _ & Hrows).
  fold ks in Hrun, Hrows. rewrite Hvf in Hrows.
  change (key_fields_of model ks) with where_fields in Hrows.
  assert (Forall2
        (λ o row, ∃ n,
           let a := attrs (Nat.iter n presave_step (h o)) in
           row = map (λ f, db_prep_save f a) set_fields
                   ++ map (λ f, db_prep_save f a) where_fields)
        objects rows) as Hshape.
  { eapply Forall2_impl; [|apply Hrows]. intros o row [n ->]. exists n.
    unfold row_of. by rewrite map_app. }
  exists rows, h'. split; [|split; [done|]].
  - unfold update_many.
    erewrite bind_ok_ok; [| apply Hrun | apply commit_unless_managed_run].
    unfold update_sql. rewrite Hvf.
    by rewrite <- (assoc_L (++)).
  - eapply Forall2_Forall_r; [apply Hshape|].
    apply Forall_forall. intros o _ row [n ->].
    by rewrite length_app, !length_map.
Qed.

(** C4, as the code has it.  With an empty batch none of the three
    operations calls [presave], executes a statement or issues a query, and
    each returns normally; [insert_or_update_many] does not commit either,
    while [insert_many] and [update_many] still call
    [commit_unless_managed], which commits when the transaction is not
    managed by the caller. *)
Theorem empty_batch_effects model keys (skip_update : bool) h :
  insert_many quote_name managed model [] h
  = (Ok tt, h, if managed then [] else [Commit])
  ∧ update_many quote_name managed model [] keys h
    = (Ok tt, h, if managed then [] else [Commit])
  ∧ insert_or_update_many quote_name fetchall managed model [] keys
      skip_update h
    = (Ok tt, h, []).
Proof.
  split; [|split].
  - unfold insert_many.
    erewrite bind_ok_ok;
      [| apply insert_many_list_nil | apply commit_unless_managed_run].
    done.
  - unfold update_many.
    erewrite bind_ok_ok;
      [| apply update_many_nil | apply commit_unless_managed_run].
    done.
  - done.
Qed.

(** C5.  On a non-empty batch, when no field of the model is named in the
    resolved key set, [update_many] and [insert_or_update_many] raise
    (the [assert] on [key_fields]) before any hook is called, any statement
    is sent or anything is committed. *)
Theorem empty_key_set_fails model objects keys (skip_update : bool) h :
  objects ≠ [] →
  key_fields_of model (keys_or keys [pk_name model]) = [] →
  update_many quote_name managed model objects keys h
  = (Raise (AssertionError "Empty key fields"), h, [])
  ∧ insert_or_update_many quote_name fetchall managed model objects keys
      skip_update h
    = (Raise (AssertionError "Empty key fields"), h, []).
Proof.
  intros Hne Hkf. split.
  - unfold update_many. erewrite bind_raise; [done|].
    by apply update_many_no_key.
  - unfold insert_or_update_many.
    rewrite bool_decide_false by done. rewrite Hkf. done.
Qed.

(** C2.  The deduplicator, drained on its own: with [oks] the records of
    the input paired with the key-tuples prepared for them during the scan
    (in input order), the generator yields the records of [emitted], which
    holds exactly one pair per key-tuple of [oks]; the pair it holds for a
    key-tuple is the last one of [oks] with that key-tuple, that is the one
    with the highest index.  In particular, upserting two records with
    equal key-tuples (and no [presave] method) into a table that holds
    nothing executes the insert with one row, the second record's. *)
Theorem filter_objects_latest_wins :
  (∀ (kf : list (Field Attrs Value)) objects h,
     ∃ oks emitted h' evs,
       oks.*1 = objects
       ∧ mapM (_prep_values kf) (reverse objects) h
         = (Ok (reverse (oks.*2)), h', evs)
       ∧ for_gen (_filter_objects objects kf) mret h = (Ok (emitted.*1), h', evs)
       ∧ NoDup (emitted.*2)
       ∧ (∀ k, k ∈ emitted.*2 ↔ k ∈ oks.*2)
       ∧ (∀ o k, (o, k) ∈ emitted
                 ↔ ∃ l1 l2, oks = l1 ++ (o, k) :: l2 ∧ k ∉ l2.*2)
       ∧ (∀ o k, (o, k) ∈ emitted →
            ∃ i, oks !! i = Some (o, k)
                 ∧ ∀ j o', oks !! j = Some (o', k) → j ≤ i))
  ∧ (∀ model keys (skip_update : bool) h o1 o2,
       let ks := keys_or keys [pk_name model] in
       let kf := key_fields_of model ks in
       kf ≠ [] →
       presave (h o1) = None → presave (h o2) = None →
       row_of kf (attrs (h o1)) = row_of kf (attrs (h o2)) →
       (∀ sql params, fetchall sql params = []) →
       insert_or_update_many quote_name fetchall managed model [o1; o2] keys
         skip_update h
       = (Ok tt, h,
          [Execute (select_sql quote_name model ks 2)
             (row_of kf (attrs (h o1)) ++ row_of kf (attrs (h o2)));
           ExecuteMany (insert_sql quote_name model)
             [row_of (_model_fields model) (attrs (h o2))]]
            ++ (if managed then [] else [Commit]))).
Proof.
  split; [|intros; by apply upsert_same_key_pair].
  intros kf objects h.
  destruct (filter_loop_drain kf (reverse objects) ∅ h)
    as (scan & h' & Hfst & Hmap & Hgen).
  assert (∀ o k, (o, k) ∈ first_seen ∅ scan
                 ↔ ∃ l1 l2, reverse scan = l1 ++ (o, k) :: l2 ∧ k ∉ l2.*2)
    as Helem.
  { intros o k. rewrite first_seen_elem. split.
    - intros (_ & s1 & s2 & -> & Hs1).
      exists (reverse s2), (reverse s1).
      rewrite reverse_app, reverse_cons, <- (assoc_L (++)). split; [done|].
      by rewrite fmap_reverse, elem_of_reverse.
    - intros (l1 & l2 & Heq & Hl2). split; [set_solver|].
      exists (reverse l2), (reverse l1). split.
      + rewrite <- (reverse_involutive scan), Heq.
        by rewrite reverse_app, reverse_cons, <- (assoc_L (++)).
      + by rewrite fmap_reverse, elem_of_reverse. }
  exists (reverse scan), (first_seen ∅ scan), h', (Presave <$> hooked h (reverse objects)).
  split; [|split; [|split; [|split; [|split; [|split]]]]].
  - by rewrite fmap_reverse, Hfst, reverse_involutive.
  - by rewrite fmap_reverse, reverse_involutive.
  - by rewrite for_gen_filter_objects.
  - apply first_seen_NoDup.
  - intros k. rewrite first_seen_keys, fmap_reverse, elem_of_reverse. set_solver.
  - done.
  - intros o k (l1 & l2 & Heq & Hl2)%Helem.
    exists (length l1). rewrite Heq. split; [by apply list_lookup_middle|].
    intros j o' Hj. destruct (decide (j ≤ length l1)) as [|Hgt]; [done|].
    exfalso. apply Hl2.
    rewrite lookup_app_r in Hj by lia.
    destruct (j - length l1) as [|j'] eqn:Hj'; [lia|]. simpl in Hj.
    apply (list_elem_of_fmap_2 snd _ (o', k)). by eapply list_elem_of_lookup_2.
Qed.

(** C6, as the code has it.  In every statement that the three operations
    execute, each column name goes through [quote_name]; the table name is
    written as [model._meta.db_table] gives it, unquoted. *)
Theorem statements_quote_columns model objects keys (skip_update : bool) h :
  let ks := keys_or keys [pk_name model] in
  let kf := key_fields_of model ks in
  let vf := value_fields_of model ks in
  let fs := _model_fields model in
  let insert_text :=
    "INSERT INTO " +:+ db_table model +:+ " ("
      +:+ join "," (map (λ f, quote_name (column f)) fs) +:+ ") VALUES ("
      +:+ join "," (replicate (length fs) "%s") +:+ ")" in
  let update_text :=
    "UPDATE " +:+ db_table model +:+ " SET "
      +:+ join "," (map (λ f, quote_name (column f) +:+ "=%s") vf)
      +:+ " WHERE "
      +:+ join " AND " (map (λ f, quote_name (column f) +:+ "=%s") kf) in
  let select_text :=
    "SELECT " +:+ join "," (map (λ f, quote_name (column f)) kf)
      +:+ " FROM " +:+ db_table model
      +:+ " WHERE (" +:+ join "," (map (λ f, quote_name (column f)) kf)
      +:+ ") IN ("
      +:+ join ","
            (replicate (length objects)
               ("(" +:+ join "," (replicate (length kf) "%s") +:+ ")"))
      +:+ ")" in
  objects ≠ [] → kf ≠ [] →
  (∃ rows h',
     insert_many quote_name managed model objects h
     = (Ok tt, h',
        (Presave <$> hooked h objects) ++ [ExecuteMany insert_text rows]
          ++ (if managed then [] else [Commit])))
  ∧ (∃ rows h',
       update_many quote_name managed model objects keys h
       = (Ok tt, h',
          (Presave <$> hooked h objects) ++ [ExecuteMany update_text rows]
            ++ (if managed then [] else [Commit])))
  ∧ (∃ params evs h',
       insert_or_update_many quote_name fetchall managed model objects keys
         skip_update h
       = (Ok tt, h',
          (Presave <$> hooked h objects) ++ [Execute select_text params] ++ evs)
       ∧ Forall
           (λ e, match e with
                 | ExecuteMany sql _ => sql = update_text ∨ sql = insert_text
                 | Execute _ _ => False
                 | Presave _ | Commit => True
                 end) evs).
Proof.
  intros ks kf vf fs insert_text update_text select_text Hne Hkf.
  split; [|split].
  - destruct (insert_many_list_run quote_name model objects h Hne)
      as (rows & h' & Hrun & _).
    exists rows, h'. unfold insert_many.
    erewrite bind_ok_ok; [| apply Hrun | apply commit_unless_managed_run].
    by rewrite <- (assoc_L (++)).
  - destruct (update_many_run quote_name model objects keys h Hne Hkf)
      as (rows & h' & Hrun & _).
    exists rows, h'. unfold update_many.
    erewrite bind_ok_ok; [| apply Hrun | apply commit_unless_managed_run].
    by rewrite <- (assoc_L (++)).
  - destruct (upsert_run quote_name fetchall managed model objects keys
                skip_update h Hne Hkf)
      as (oks & h1 & urows & surv & rows & h' & ps & _ & _ & _ & _ & Hrest).
    cbv zeta in Hrest. destruct Hrest as (_ & _ & _ & _ & Hrun).
    eexists _, _, h'. split; [apply Hrun|].
    assert (∀ l : list oid,
      Forall (λ e : Event Value,
                match e with
                | ExecuteMany sql _ => sql = update_text ∨ sql = insert_text
                | Execute _ _ => False
                | Presave _ | Commit => True
                end) (Presave <$> l)) as Hpres.
    { intros l. apply Forall_fmap, Forall_forall. by intros. }
    apply Forall_app. split.
    + destruct skip_update; [constructor|].
      apply Forall_app. split; [apply Hpres|].
      destruct (decide _); [constructor|].
      constructor; [by left | constructor].
    + apply Forall_app. split; [apply Hpres|].
      apply Forall_app. split.
      * constructor; [by right | constructor].
      * destruct managed; repeat constructor.
Qed.

(** C7, as the code has it.  On a non-empty batch [insert_or_update_many]
    calls the helpers that do not commit and then [commit_unless_managed]
    once: outside a managed transaction there is exactly one commit, it is
    the last event of the call and follows the execution of the insert
    statement; nothing is committed between the update and the insert. *)
Theorem upsert_commits_once model objects keys (skip_update : bool) h :
  objects ≠ [] →
  key_fields_of model (keys_or keys [pk_name model]) ≠ [] →
  ∃ evs rows h',
    insert_or_update_many quote_name fetchall managed model objects keys
      skip_update h
    = (Ok tt, h',
       evs ++ [ExecuteMany (insert_sql quote_name model) rows]
         ++ (if managed then [] else [Commit]))
    ∧ commits evs = 0
    ∧ commits
        (events_of
           (insert_or_update_many quote_name fetchall managed model objects
              keys skip_update h))
      = (if managed then 0 else 1).
Proof.
  intros Hne Hkf.
  destruct (upsert_run quote_name fetchall managed model objects keys
              skip_update h Hne Hkf)
    as (oks & h1 & urows & surv & rows & h' & ps & _ & _ & _ & _ & Hrest).
  cbv zeta in Hrest. destruct Hrest as (_ & _ & _ & _ & Hrun).
  eexists _, rows, h'.
  assert (∀ (a b c d : list (Event Value)) e f,
            a ++ b ++ c ++ d ++ e ++ f = (a ++ b ++ c ++ d) ++ e ++ f) as Hassoc.
  { intros. by rewrite <- !(assoc_L (++)). }
  rewrite Hassoc in Hrun. split; [apply Hrun|].
  match type of Hrun with _ = (_, _, ?evs ++ _) =>
    assert (commits evs = 0) as Hzero end.
  { rewrite !commits_app, !commits_presaves.
    destruct skip_update; [done|].
    rewrite commits_app, commits_presaves. by destruct (decide _). }
  split; [done|].
  rewrite Hrun. unfold events_of. cbn [snd].
  rewrite commits_app, Hzero. by destruct managed.
Qed.

(** C8, as the code has it.  In one call of [insert_or_update_many], the
    [presave] method of a record is called once for each occurrence of the
    record in the batch when its key-tuple is prepared for the existence
    select, and again each time its values are prepared later: once for
    each of its occurrences among the update-candidates, for the update,
    unless [skip_update] is set, in which case the update phase calls
    nothing; once for each of its occurrences among the insert-candidates,
    by the deduplicator; and once more each time the deduplicator yields
    it, for the insert.  A record that occurs once thus has its method
    called twice as an update-candidate, but once when [skip_update] is
    set, twice as an insert-candidate that is dropped and three times as
    one that is yielded.  [emitted] is the list of the records yielded, one
    for each row of the insert. *)
Theorem presave_call_count model objects keys (skip_update : bool) h o :
  let ks := keys_or keys [pk_name model] in
  let kf := key_fields_of model ks in
  let sql := select_sql quote_name model ks (length objects) in
  let occ (l : list oid) := length (filter (λ x, x = o) l) in
  objects ≠ [] → kf ≠ [] → has_presave h o →
  ∃ oks h1 scan evs_update ps rows h',
    object_keys_of kf objects h = (Ok oks, h1, Presave <$> hooked h objects)
    ∧ oks.*1 = objects
    ∧ let existing : gset (list Value) :=
        list_to_set (fetchall sql (concat (oks.*2))) in
      let upd := update_objects_of oks existing in
      let ins := insert_objects_of oks existing in
      let emitted := (first_seen ∅ scan).*1 in
      let n :=
        presave_calls o
          (events_of
             (insert_or_update_many quote_name fetchall managed model objects
                keys skip_update h)) in
      scan.*1 = reverse ins
      ∧ Forall2 (prepared h kf) (reverse ins) (scan.*2)
      ∧ insert_or_update_many quote_name fetchall managed model objects keys
          skip_update h
        = (Ok tt, h',
           (Presave <$> hooked h objects)
             ++ [Execute sql (concat (oks.*2))]
             ++ evs_update
             ++ (Presave <$> ps)
             ++ [ExecuteMany (insert_sql quote_name model) rows]
             ++ (if managed then [] else [Commit]))
      ∧ length rows = length emitted
      ∧ presave_calls (Value := Value) o (Presave <$> hooked h objects)
        = occ objects
      ∧ presave_calls o evs_update = (if skip_update then 0 else occ upd)
      ∧ presave_calls (Value := Value) o (Presave <$> ps)
        = occ ins + occ emitted
      ∧ occ upd + occ ins = occ objects
      ∧ occ emitted ≤ occ ins
      ∧ n = occ objects + (if skip_update then 0 else occ upd)
            + occ ins + occ emitted
      ∧ (occ objects = 1 →
         ∀ k, (o, k) ∈ oks →
           (k ∈ existing → n = if skip_update then 1 else 2)
           ∧ (k ∉ existing → n = if decide (o ∈ emitted) then 3 else 2)).
Proof.
  intros ks kf sql occ Hne Hkf Hhook.
  destruct (upsert_emits quote_name fetchall managed model objects keys
              skip_update h Hne Hkf)
    as (oks & h1 & urows & scan & rows & h' & ps & Hrun1 & Hfst & Hrest).
  fold ks kf sql in Hrest. cbv zeta in Hrest.
  set (existing := list_to_set (fetchall sql (concat (oks.*2)))
         : gset (list Value)) in *.
  set (upd := update_objects_of oks existing) in *.
  set (ins := insert_objects_of oks existing) in *.
  set (emitted := (first_seen ∅ scan).*1) in *.
  destruct Hrest as (Hscan & Hkeys & Hps & Hrows & Hrun).
  set (evs_update :=
         if skip_update then []
         else (Presave <$> hooked h upd)
                ++ (if decide (upd = []) then []
                    else [ExecuteMany (update_sql quote_name model ks) urows]))
    in *.
  assert (presave_calls (Value := Value) o (Presave <$> hooked h objects)
        = occ objects)
    as Hc1 by (by rewrite presave_calls_presaves, hooked_count).
  assert (presave_calls o evs_update = (if skip_update then 0 else occ upd))
    as Hc2.
  { unfold evs_update. destruct skip_update; [done|].
    rewrite presave_calls_app, presave_calls_presaves, hooked_count by done.
    destruct (decide (upd = [])); unfold occ;
      [rewrite presave_calls_nil | rewrite presave_calls_round_trip by done];
      lia. }
  assert (presave_calls (Value := Value) o (Presave <$> ps)
        = occ ins + occ emitted) as Hc3.
  { rewrite presave_calls_presaves, Hps, list.filter_app, length_app.
    by rewrite !hooked_count by done. }
  assert (occ upd + occ ins = occ objects) as Hsplit.
  { unfold occ. rewrite <- length_app, <- list.filter_app.
    unfold upd, ins. by rewrite candidates_permutation, Hfst. }
  assert (occ emitted ≤ occ ins) as Hle.
  { unfold occ. etrans.
    - apply (count_sublist emitted (reverse ins) o).
      rewrite <- Hscan. apply first_seen_sublist_fst.
    - by rewrite filter_reverse, length_reverse. }
  assert (presave_calls o
            (events_of
               (insert_or_update_many quote_name fetchall managed model
                  objects keys skip_update h))
          = occ objects + (if skip_update then 0 else occ upd)
            + occ ins + occ emitted) as Hn.
  { rewrite Hrun. unfold events_of. cbn [snd].
    rewrite !presave_calls_app, Hc1, Hc2, Hc3.
    assert (presave_calls o (if managed then [] else [Commit : Event Value])
            = 0) as -> by (by destruct managed).
    rewrite !presave_calls_round_trip by done. lia. }
  exists oks, h1, scan, evs_update, ps, rows, h'.
  split; [done|]. split; [done|]. cbv zeta.
  fold existing upd ins emitted.
  split; [done|]. split; [done|]. split; [done|].
  split; [symmetry; by eapply Forall2_length|].
  split; [done|]. split; [done|]. split; [done|]. split; [done|].
  split; [done|]. split; [done|].
  intros Hone k Hk. rewrite Hn. split; intros Hex.
  - assert (o ∈ upd) as Hu by (apply update_objects_elem; by exists k).
    apply count_elem in Hu. fold (occ upd) in Hu.
    destruct skip_update; lia.
  - assert (o ∈ ins) as Hi by (apply insert_objects_elem; by exists k).
    apply count_elem in Hi. fold (occ ins) in Hi.
    destruct (decide (o ∈ emitted)) as [He|He].
    + apply count_elem in He. fold (occ emitted) in He.
      destruct skip_update; lia.
    + apply count_not_elem in He. fold (occ emitted) in He.
      destruct skip_update; lia.
Qed.

(** C9.  When the key-tuple of every record of a non-empty batch is among
    the rows that the existence select returns, there is no
    insert-candidate, but the insert is not skipped: the argument of
    [_insert_many] is a generator object, which is true although it yields
    nothing, so the guard that stops [_insert_many] on an empty list does
    not fire and the insert statement is executed with an empty list of
    parameters. *)
Theorem insert_runs_without_candidates model objects keys (skip_update : bool)
    h oks h1 ev1 :
  let ks := keys_or keys [pk_name model] in
  let kf := key_fields_of model ks in
  let sql := select_sql quote_name model ks (length objects) in
  let existing : gset (list Value) :=
    list_to_set (fetchall sql (concat (oks.*2))) in
  objects ≠ [] → kf ≠ [] →
  object_keys_of kf objects h = (Ok oks, h1, ev1) →
  (∀ k, k ∈ oks.*2 → k ∈ existing) →
  insert_objects_of oks existing = []
  ∧ truthy (PyGen (_filter_objects (insert_objects_of oks existing) kf)) = true
  ∧ (∀ h0, for_gen (_filter_objects (insert_objects_of oks existing) kf) mret h0
           = (Ok [], h0, []))
  ∧ (∀ h0, _insert_many quote_name model
             (PyList (insert_objects_of oks existing)) h0
           = (Ok tt, h0, []))
  ∧ ∃ evs h',
      insert_or_update_many quote_name fetchall managed model objects keys
        skip_update h
      = (Ok tt, h',
         evs ++ [ExecuteMany (insert_sql quote_name model) []]
           ++ (if managed then [] else [Commit])).
Proof.
  intros ks kf sql existing Hne Hkf Hoks Hall.
  pose proof (insert_objects_none oks existing Hall) as Hins.
  split; [done|]. split; [done|]. rewrite Hins.
  split; [done|]. split; [done|].
  destruct (upsert_run quote_name fetchall managed model objects keys
              skip_update h Hne Hkf)
    as (oks' & h1' & urows & surv & rows & h' & ps & Hrun1 & _ & _ & _ & Hrest).
  fold ks kf sql in Hrun1, Hrest. rewrite Hoks in Hrun1.
  injection Hrun1 as <- <- _. cbv zeta in Hrest. fold existing in Hrest.
  rewrite Hins in Hrest. destruct Hrest as (_ & _ & Hsub & Hrows & Hrun).
  apply sublist_nil_r in Hsub as ->.
  apply Forall2_nil_inv_l in Hrows as ->.
  assert (∀ (a b c d : list (Event Value)) e f,
            a ++ b ++ c ++ d ++ e ++ f = (a ++ b ++ c ++ d) ++ e ++ f) as Hassoc.
  { intros. by rewrite <- !(assoc_L (++)). }
  rewrite Hassoc in Hrun. by eexists _, h'.
Qed.

(** C10.  The deduplicator scans the insert-candidates from the last to
    the first and yields a record the first time the scan meets its
    key-tuple, and [_insert_many] prepares one row per yielded record as
    it is yielded.  With [scan] the reversed insert-candidates paired with
    the key-tuples prepared for them, the records yielded are those of
    [first_seen ∅ scan]: the last insert-candidate comes first, every
    key-tuple of [scan] has one record, which is the first of [scan], that
    is the latest of the batch, with that key-tuple, and the rows of the
    insert that [insert_or_update_many] executes follow these records one
    for one.  Drained on its own, the generator yields the same
    sub-sequence of the reversed insert-candidates. *)
Theorem insert_rows_latest_first model objects keys (skip_update : bool) h :
  let ks := keys_or keys [pk_name model] in
  let kf := key_fields_of model ks in
  let sql := select_sql quote_name model ks (length objects) in
  objects ≠ [] → kf ≠ [] →
  ∃ oks h1 scan rows evs h',
    object_keys_of kf objects h = (Ok oks, h1, Presave <$> hooked h objects)
    ∧ let existing : gset (list Value) :=
        list_to_set (fetchall sql (concat (oks.*2))) in
      let ins := insert_objects_of oks existing in
      let surv := (first_seen ∅ scan).*1 in
      (∀ h0, ∃ scan0 h0' evs0,
         scan0.*1 = reverse ins
         ∧ mapM (_prep_values kf) (reverse ins) h0
           = (Ok (scan0.*2), h0', evs0)
         ∧ for_gen (_filter_objects ins kf) mret h0
           = (Ok ((first_seen ∅ scan0).*1), h0', evs0)
         ∧ sublist (first_seen ∅ scan0).*1 (reverse ins)
         ∧ (∀ l o, ins = l ++ [o] →
                   ∃ out', (first_seen ∅ scan0).*1 = o :: out'))
      ∧ scan.*1 = reverse ins
      ∧ Forall2 (prepared h kf) (reverse ins) (scan.*2)
      ∧ sublist surv (reverse ins)
      ∧ sublist surv (reverse objects)
      ∧ (∀ l o, ins = l ++ [o] → ∃ surv', surv = o :: surv')
      ∧ NoDup (first_seen ∅ scan).*2
      ∧ (∀ k, k ∈ (first_seen ∅ scan).*2 ↔ k ∈ scan.*2)
      ∧ (∀ o k, (o, k) ∈ first_seen ∅ scan
                ↔ ∃ l1 l2, scan = l1 ++ (o, k) :: l2 ∧ k ∉ l1.*2)
      ∧ length rows = length surv
      ∧ Forall2 (prepared h (_model_fields model)) surv rows
      ∧ (∀ i o row,
           surv !! i = Some o → rows !! i = Some row →
           presave (h o) = None →
           row = row_of (_model_fields model) (attrs (h o)))
      ∧ insert_or_update_many quote_name fetchall managed model objects keys
          skip_update h
        = (Ok tt, h',
           evs ++ [ExecuteMany (insert_sql quote_name model) rows]
             ++ (if managed then [] else [Commit])).
Proof.
  intros ks kf sql Hne Hkf.
  destruct (upsert_emits quote_name fetchall managed model objects keys
              skip_update h Hne Hkf)
    as (oks & h1 & urows & scan & rows & h' & ps & Hrun1 & Hfst & Hrest).
  fold ks kf sql in Hrest. cbv zeta in Hrest.
  set (existing := list_to_set (fetchall sql (concat (oks.*2)))
         : gset (list Value)) in *.
  set (ins := insert_objects_of oks existing) in *.
  destruct Hrest as (Hscan & Hkeys & _ & Hrows & Hrun).
  assert (∀ (a b c d : list (Event Value)) e f,
            a ++ b ++ c ++ d ++ e ++ f = (a ++ b ++ c ++ d) ++ e ++ f) as Hassoc.
  { intros. by rewrite <- !(assoc_L (++)). }
  rewrite Hassoc in Hrun.
  assert (∀ l o, ins = l ++ [o] → reverse ins = o :: reverse l) as Hlast.
  { intros l o ->. by rewrite reverse_app. }
  assert (sublist (first_seen ∅ scan).*1 (reverse ins)) as Hsub.
  { rewrite <- Hscan. apply first_seen_sublist_fst. }
  eexists oks, h1, scan, rows, _, h'. split; [done|]. cbv zeta.
  fold existing ins.
  split; [|split; [done|split; [done|split; [done|split;
    [|split; [|split; [|split; [|split; [|split; [|split; [done|split;
      [|done]]]]]]]]]]]].
  - intros h0.
    destruct (filter_loop_drain kf (reverse ins) ∅ h0)
      as (scan0 & h0' & Hscan0 & Hmap & Hgen).
    exists scan0, h0', (Presave <$> hooked h0 (reverse ins)).
    split; [done|]. split; [done|].
    split; [by rewrite for_gen_filter_objects|].
    split; [rewrite <- Hscan0; apply first_seen_sublist_fst|].
    intros l o Hl. apply (first_seen_empty_head scan0 o (reverse l)).
    rewrite Hscan0. by apply Hlast.
  - etrans; [apply Hsub|]. apply sublist_reverse_mono.
    rewrite <- Hfst. apply insert_objects_sublist.
  - intros l o Hl. apply (first_seen_empty_head scan o (reverse l)).
    rewrite Hscan. by apply Hlast.
  - apply first_seen_NoDup.
  - apply first_seen_empty_keys.
  - apply first_seen_empty_elem.
  - symmetry. by eapply Forall2_length.
  - intros i o row Ho Hrow Hno.
    eapply prepared_no_presave; [done|].
    by eapply (Forall2_lookup_lr _ _ _ i).
Qed.

End Results.

(** * Runs on the Person schema *)

Section PersonRuns.
Import Person.

Lemma person_key_fields :
  key_fields_of model (keys_or email_key [pk_name model]) ≠ [].
Proof. vm_compute. discriminate. Defined.


Lemma filter_objects_latest_wins_witness :
  key_fields_of model (keys_or email_key [pk_name model]) ≠ []
  ∧ presave (heap 0) = None
  ∧ presave (heap 1) = None
  ∧ (∀ sql params, empty_table sql params = [])
  ∧ events_of
      (insert_or_update_many backtick empty_table false model [0; 1]
         email_key false heap)
    = [Execute "SELECT `email` FROM person WHERE (`email`) IN ((%s),(%s))"
         ["a@x"; "a@x"];
       ExecuteMany "INSERT INTO person (`email`,`name`) VALUES (%s,%s)"
         [["a@x"; "Ann2"]];
       Commit].
Proof.
  split; [exact person_key_fields|]. split; [reflexivity|].
  split; [reflexivity|]. split; [reflexivity|].
  rewrite (proj2 (filter_objects_latest_wins backtick empty_table false)
             model email_key false heap 0 1 person_key_fields
             eq_refl eq_refl eq_refl (λ _ _, eq_refl)).
  reflexivity.
Defined.

Lemma update_statement_shape_witness :
  [2; 3] ≠ []
  ∧ filter (λ f, name f ∈ keys_or None [pk_name model]) (fields model) ≠ []
  ∧ ∃ rows,
      events_of (update_many backtick false model [2; 3] None heap)
      = [Presave 2;
         ExecuteMany "UPDATE person SET `email`=%s,`name`=%s WHERE `id`=%s"
           rows;
         Commit]
      ∧ Forall (λ row, length row = 3) rows.
Proof.
  assert ([2; 3] ≠ []) as Hne by discriminate.
  assert (filter (λ f, name f ∈ keys_or None [pk_name model]) (fields model)
          ≠ []) as Hkf by (vm_compute; discriminate).
  split; [exact Hne|]. split; [exact Hkf|].
  destruct (update_statement_shape backtick false model [2; 3] None heap Hne Hkf)
    as (rows & h' & Hrun & _ & Hlen).
  exists rows. rewrite Hrun. split; [reflexivity | exact Hlen].
Defined.

Lemma empty_key_set_fails_witness :
  [0] ≠ []
  ∧ key_fields_of model (keys_or (Some ["nokey"]) [pk_name model]) = []
  ∧ update_many backtick false model [0] (Some ["nokey"]) heap
    = (Raise (AssertionError "Empty key fields"), heap, [])
  ∧ insert_or_update_many backtick full_table false model [0] (Some ["nokey"])
      false heap
    = (Raise (AssertionError "Empty key fields"), heap, []).
Proof.
  assert ([0] ≠ []) as Hne by discriminate.
  assert (key_fields_of model (keys_or (Some ["nokey"]) [pk_name model]) = [])
    as Hkf by reflexivity.
  split; [exact Hne|]. split; [exact Hkf|].
  exact (empty_key_set_fails backtick full_table false model [0]
           (Some ["nokey"]) false heap Hne Hkf).
Defined.

Lemma statements_quote_columns_witness :
  [2; 3] ≠ []
  ∧ key_fields_of model (keys_or email_key [pk_name model]) ≠ []
  ∧ ∃ rows h',
      insert_many backtick false model [2; 3] heap
      = (Ok tt, h',
         [Presave 2;
          ExecuteMany "INSERT INTO person (`email`,`name`) VALUES (%s,%s)" rows;
          Commit]).
Proof.
  assert ([2; 3] ≠ []) as Hne by discriminate.
  split; [exact Hne|]. split; [exact person_key_fields|].
  destruct (statements_quote_columns backtick full_table false model [2; 3]
              email_key false heap Hne person_key_fields)
    as ((rows & h' & Hrun) & _).
  exists rows, h'. rewrite Hrun. reflexivity.
Defined.

Lemma upsert_commits_once_witness :
  [2; 3] ≠ []
  ∧ key_fields_of model (keys_or email_key [pk_name model]) ≠ []
  ∧ commits
      (events_of
         (insert_or_update_many backtick full_table false model [2; 3]
            email_key false heap))
    = 1.
Proof.
  assert ([2; 3] ≠ []) as Hne by discriminate.
  split; [exact Hne|]. split; [exact person_key_fields|].
  destruct (upsert_commits_once backtick full_table false model [2; 3]
              email_key false heap Hne person_key_fields)
    as (evs & rows & h' & _ & _ & Hcommits).
  exact Hcommits.
Defined.

Lemma presave_call_count_witness :
  [0; 1; 2; 3] ≠ []
  ∧ key_fields_of model (keys_or email_key [pk_name model]) ≠ []
  ∧ has_presave heap 2
  ∧ presave_calls 2
      (events_of
         (insert_or_update_many backtick full_table false model
            [0; 1; 2; 3] email_key true heap))
    = 1.
Proof.
  assert ([0; 1; 2; 3] ≠ []) as Hne by discriminate.
  assert (has_presave heap 2) as Hhook by (by eexists).
  split; [exact Hne|]. split; [exact person_key_fields|].
  split; [exact Hhook|].
  destruct (presave_call_count backtick full_table false model [0; 1; 2; 3]
              email_key true heap 2 Hne person_key_fields Hhook)
    as (oks & h1 & scan & evs_update & ps & rows & h' & Hrun1 & _ & Hrest).
  cbv zeta in Hrest.
  destruct Hrest as (_ & _ & _ & _ & _ & _ & _ & _ & _ & _ & Hone).
  assert (oks = [(0, ["a@x"]); (1, ["a@x"]); (2, ["b@x"]); (3, ["c@x"])])
    as -> by (by injection Hrun1 as <- _).
  destruct (Hone eq_refl ["b@x"]) as [Hupd _]; [compute_done|].
  apply Hupd. apply elem_of_list_to_set. compute_done.
Defined.

Lemma insert_runs_without_candidates_witness :
  [0; 1; 2; 3] ≠ []
  ∧ key_fields_of model (keys_or email_key [pk_name model]) ≠ []
  ∧ result_of
      (object_keys_of (key_fields_of model (keys_or email_key [pk_name model]))
         [0; 1; 2; 3] heap)
    = Ok [(0, ["a@x"]); (1, ["a@x"]); (2, ["b@x"]); (3, ["c@x"])]
  ∧ ∃ evs h',
      insert_or_update_many backtick full_table false model [0; 1; 2; 3]
        email_key false heap
      = (Ok tt, h',
         evs
           ++ [ExecuteMany "INSERT INTO person (`email`,`name`) VALUES (%s,%s)"
                 []]
           ++ [Commit]).
Proof.
  set (kf := key_fields_of model (keys_or email_key [pk_name model])).
  set (oks := [(0, ["a@x"]); (1, ["a@x"]); (2, ["b@x"]); (3, ["c@x"])]).
  assert ([0; 1; 2; 3] ≠ []) as Hne by discriminate.
  split; [exact Hne|]. split; [exact person_key_fields|].
  split; [reflexivity|].
  assert (object_keys_of kf [0; 1; 2; 3] heap
          = (Ok oks, heap_of (object_keys_of kf [0; 1; 2; 3] heap), [Presave 2]))
    as Hoks by reflexivity.
  assert (∀ k, k ∈ oks.*2 →
               k ∈ (list_to_set
                      (full_table
                         (select_sql backtick model
                            (keys_or email_key [pk_name model]) 4)
                         (concat (oks.*2))) : gset (list string))) as Hall.
  { intros k Hk. apply elem_of_list_to_set. exact Hk. }
  exact (proj2 (proj2 (proj2 (proj2
           (insert_runs_without_candidates backtick full_table false model
              [0; 1; 2; 3] email_key false heap oks _ _ Hne person_key_fields
              Hoks Hall))))).
Defined.

Lemma insert_rows_latest_first_witness :
  [0; 1; 2; 3] ≠ []
  ∧ key_fields_of model (keys_or email_key [pk_name model]) ≠ []
  ∧ ∃ evs rows,
      events_of
        (insert_or_update_many backtick empty_table false model [0; 1; 2; 3]
           email_key false heap)
      = evs
          ++ [ExecuteMany "INSERT INTO person (`email`,`name`) VALUES (%s,%s)"
                rows]
          ++ [Commit]
      ∧ rows !! 0 = Some ["c@x"; "Cy"].
Proof.
  assert ([0; 1; 2; 3] ≠ []) as Hne by discriminate.
  split; [exact Hne|]. split; [exact person_key_fields|].
  destruct (insert_rows_latest_first backtick empty_table false model
              [0; 1; 2; 3] email_key false heap Hne person_key_fields)
    as (oks & h1 & scan & rows & evs & h' & Hrun1 & Hrest).
  cbv zeta in Hrest.
  destruct Hrest
    as (_ & _ & _ & _ & _ & Hfirst & _ & _ & _ & Hlen & _ & Hrow & Hrun).
  assert (oks = [(0, ["a@x"]); (1, ["a@x"]); (2, ["b@x"]); (3, ["c@x"])])
    as -> by (by injection Hrun1 as <- _).
  exists evs, rows. rewrite Hrun. split; [reflexivity|].
  destruct (Hfirst [0; 1; 2] 3 eq_refl) as [surv' Hsurv].
  rewrite Hsurv in Hlen, Hrow.
  destruct rows as [|row rows]; [discriminate Hlen|].
  cbn [lookup list_lookup]. f_equal.
  exact (Hrow 0 3 row eq_refl eq_refl eq_refl).
Defined.

(** With an empty batch and no managed transaction, [insert_many] and
    [update_many] still commit. *)
Lemma empty_batch_commits :
  events_of (insert_many backtick false model [] heap) = [Commit]
  ∧ events_of (update_many backtick false model [] None heap) = [Commit]
  ∧ commits (events_of (insert_many backtick false model [] heap)) ≠ 0.
Proof. split; [reflexivity|]. split; [reflexivity|]. discriminate. Qed.

(** The table name is not quoted: the statements differ from the ones
    with every identifier quoted. *)
Lemma table_name_not_quoted :
  events_of (insert_many backtick false model [0] heap)
  = [ExecuteMany "INSERT INTO person (`email`,`name`) VALUES (%s,%s)"
       [["a@x"; "Ann"]];
     Commit]
  ∧ insert_sql backtick model ≠ quoted_insert_sql backtick model
  ∧ update_sql backtick model ["email"] ≠ quoted_update_sql backtick model ["email"]
  ∧ select_sql backtick model ["email"] 2
    ≠ quoted_select_sql backtick model ["email"] 2.
Proof.
  split; [reflexivity|]. split; [|split]; vm_compute; discriminate.
Qed.

(** Outside a managed transaction an upsert that updates two records
    commits once, after the insert; nothing is committed between the update
    and the insert. *)
Lemma upsert_single_commit :
  events_of
    (insert_or_update_many backtick full_table false model [2; 3] email_key
       false heap)
  = [Presave 2;
     Execute "SELECT `email` FROM person WHERE (`email`) IN ((%s),(%s))"
       ["b@x"; "c@x"];
     Presave 2;
     ExecuteMany "UPDATE person SET `name`=%s WHERE `email`=%s"
       [["Bob!!"; "b@x"]; ["Cy"; "c@x"]];
     ExecuteMany "INSERT INTO person (`email`,`name`) VALUES (%s,%s)" [];
     Commit]
  ∧ commits
      (events_of
         (insert_or_update_many backtick full_table false model [2; 3]
            email_key false heap))
    ≠ 2.
Proof. split; [reflexivity|]. vm_compute. discriminate. Qed.

(** With [skip_update] an update-candidate that has a [presave] method has
    it called exactly once. *)
Lemma presave_called_once :
  has_presave heap 2
  ∧ events_of
      (insert_or_update_many backtick full_table false model [2; 3] email_key
         true heap)
    = [Presave 2;
       Execute "SELECT `email` FROM person WHERE (`email`) IN ((%s),(%s))"
         ["b@x"; "c@x"];
       ExecuteMany "INSERT INTO person (`email`,`name`) VALUES (%s,%s)" [];
       Commit]
  ∧ ¬ (1 < presave_calls 2
             (events_of
                (insert_or_update_many backtick full_table false model [2; 3]
                   email_key true heap))).
Proof.
  split; [by eexists|]. split; [reflexivity|]. vm_compute. lia.
Qed.

End PersonRuns.

(** * Further properties of the module *)

(** ** Batches of records without a [presave] method *)

Section HookFreeFacts.
Context {Attrs Value : Type} `{Countable Value}.
Context (quote_name : string → string).
Implicit Types (h : Heap Attrs) (o : oid) (fs kf : list (Field Attrs Value)).
Implicit Types (model : Model Attrs Value) (keyset : gset (list Value)).

Lemma mapM_prep_no_hook fs (l : list oid) h :
  (∀ o, o ∈ l → presave (h o) = None) →
  mapM (_prep_values fs) l h
  = (Ok ((λ o, row_of fs (attrs (h o))) <$> l), h, []).
Proof.
  induction l as [|o l IH]; intros Hno; [done|].
  change (mapM (_prep_values fs) (o :: l))
    with (y ← _prep_values fs o; k ← mapM (_prep_values fs) l; mret (y :: k)).
  erewrite bind_ok_ok; [| apply prep_values_no_hook, Hno; by left |].
  2:{ erewrite bind_ok_ok; [| apply IH | reflexivity]; [reflexivity|].
      intros o' Ho'. apply Hno. by right. }
  done.
Qed.

Lemma object_keys_no_hook fs (l : list oid) h :
  (∀ o, o ∈ l → presave (h o) = None) →
  object_keys_of fs l h
  = (Ok ((λ o, (o, row_of fs (attrs (h o)))) <$> l), h, []).
Proof.
  unfold object_keys_of.
  set (body := λ o, k ← _prep_values fs o; mret (o, k)).
  induction l as [|o l IH]; intros Hno; [done|].
  change (mapM body (o :: l))
    with (y ← body o; k ← mapM body l; mret (y :: k)).
  erewrite bind_ok_ok.
  2:{ unfold body. erewrite bind_ok_ok;
        [| apply prep_values_no_hook, Hno; by left | reflexivity].
      reflexivity. }
  2:{ erewrite bind_ok_ok; [| apply IH | reflexivity]; [reflexivity|].
      intros o' Ho'. apply Hno. by right. }
  done.
Qed.

Lemma filter_loop_no_hook kf fs (rest : list oid) keyset h :
  (∀ o, o ∈ rest → presave (h o) = None) →
  for_gen (filter_loop kf rest keyset) (_prep_values fs) h
  = (Ok ((λ o, row_of fs (attrs (h o)))
           <$> (first_seen keyset
                  ((λ o, (o, row_of kf (attrs (h o)))) <$> rest)).*1),
     h, []).
Proof.
  revert keyset. induction rest as [|o rest IH]; intros keyset Hno; [done|].
  assert (presave (h o) = None) as Ho by (apply Hno; by left).
  assert (∀ o', o' ∈ rest → presave (h o') = None) as Hrest
    by (intros o' Ho'; apply Hno; by right).
  rewrite filter_loop_cons, fmap_cons. cbn [first_seen snd].
  destruct (decide (row_of kf (attrs (h o)) ∈ keyset)) as [Hin|Hnin].
  - erewrite for_gen_run; [| | by apply IH].
    2:{ erewrite bind_ok_ok; [| by apply prep_values_no_hook |].
        2:{ rewrite decide_True by done. reflexivity. }
        reflexivity. }
    done.
  - erewrite for_gen_run.
    2:{ erewrite bind_ok_ok; [| by apply prep_values_no_hook |].
        2:{ rewrite decide_False by done. reflexivity. }
        reflexivity. }
    2:{ rewrite for_gen_yield.
        erewrite bind_ok_ok; [| by apply prep_values_no_hook |].
        2:{ erewrite bind_ok_ok; [| by apply IH | reflexivity]. reflexivity. }
        reflexivity. }
    done.
Qed.

Lemma first_seen_distinct keyset (scan : list (oid * list Value)) :
  NoDup (scan.*2) → (∀ k, k ∈ scan.*2 → k ∉ keyset) →
  first_seen keyset scan = scan.
Proof.
  revert keyset. induction scan as [|[o k] scan IH]; intros keyset Hnd Hdisj;
    [done|].
  rewrite fmap_cons in Hnd, Hdisj. apply list.NoDup_cons in Hnd as [Hk Hnd].
  cbn [first_seen snd]. rewrite decide_False by (apply Hdisj; by left).
  f_equal. apply IH; [done|].
  intros k' Hk'. rewrite elem_of_union, elem_of_singleton.
  intros [->|Hin]; [done|]. apply (Hdisj k'); [by right | done].
Qed.

Lemma update_objects_fmap (key_of : oid → list Value) (l : list oid)
    (existing : gset (list Value)) :
  update_objects_of ((λ o, (o, key_of o)) <$> l) existing
  = filter (λ o, key_of o ∈ existing) l
  ∧ insert_objects_of ((λ o, (o, key_of o)) <$> l) existing
    = filter (λ o, key_of o ∉ existing) l.
Proof.
  unfold update_objects_of, insert_objects_of.
  induction l as [|o l [IH1 IH2]]; [done|]. rewrite fmap_cons.
  destruct (decide (key_of o ∈ existing)) as [Hin|Hnin].
  - rewrite (filter_cons_True (λ ok : oid * list Value, ok.2 ∈ existing))
      by done.
    rewrite (filter_cons_False (λ ok : oid * list Value, ok.2 ∉ existing))
      by (simpl; tauto).
    rewrite (filter_cons_True (λ o, key_of o ∈ existing)) by done.
    rewrite (filter_cons_False (λ o, key_of o ∉ existing)) by tauto.
    rewrite fmap_cons. split; [by f_equal | done].
  - rewrite (filter_cons_False (λ ok : oid * list Value, ok.2 ∈ existing))
      by done.
    rewrite (filter_cons_True (λ ok : oid * list Value, ok.2 ∉ existing))
      by done.
    rewrite (filter_cons_False (λ o, key_of o ∈ existing)) by done.
    rewrite (filter_cons_True (λ o, key_of o ∉ existing)) by done.
    rewrite fmap_cons. split; [done | by f_equal].
Qed.

End HookFreeFacts.

(** ** A call of [presave] and the other objects *)

Section FrameFacts.
Context {Attrs Value : Type} `{Countable Value}.
Context (quote_name : string → string).
Context (fetchall : string → list Value → list (list Value)).
Context (managed : bool).
Implicit Types (h : Heap Attrs) (o : oid) (fs kf : list (Field Attrs Value)).
Implicit Types (model : Model Attrs Value) (keyset : gset (list Value)).

Lemma after_presave_other o h o' : o' ≠ o → after_presave o h o' = h o'.
Proof.
  intros Hne. unfold after_presave.
  destruct (presave (h o)); [|done]. by rewrite fn_lookup_insert_ne.
Qed.

End FrameFacts.

(** ** Further results *)

Section MoreResults.
Context {Attrs Value : Type} `{Countable Value}.
Context (quote_name : string → string).
Context (fetchall : string → list Value → list (list Value)).
Context (managed : bool).
Implicit Types (h : Heap Attrs) (o : oid) (model : Model Attrs Value).
Implicit Types (objects : list oid) (keys : option (list string)).

Lemma filter_ext_elem {A} (P Q : A → Prop) `{!∀ x, Decision (P x)}
    `{!∀ x, Decision (Q x)} (l : list A) :
  (∀ x, x ∈ l → P x ↔ Q x) → filter P l = filter Q l.
Proof.
  induction l as [|x l IH]; intros Hext; [done|].
  rewrite !filter_cons.
  rewrite IH by (intros y Hy; apply Hext; by right).
  destruct (decide (P x)) as [HP|HP], (decide (Q x)) as [HQ|HQ]; try done.
  - exfalso. apply HQ, Hext; [by left | done].
  - exfalso. apply HP, Hext; [by left | done].
Qed.

Lemma prepared_length h (fs : list (Field Attrs Value)) o row :
  prepared h fs o row → length row = length fs.
Proof. intros [n ->]. unfold row_of. by rewrite length_map. Qed.

Lemma hooked_count_none h (l : list oid) o :
  ¬ has_presave h o → length (filter (λ x, x = o) (hooked h l)) = 0.
Proof.
  intros Hno. apply count_not_elem. unfold hooked.
  rewrite list_elem_of_filter. tauto.
Qed.

Lemma update_many_public_no_key model objects keys h :
  objects ≠ [] →
  key_fields_of model (keys_or keys [pk_name model]) = [] →
  update_many quote_name managed model objects keys h
  = (Raise (AssertionError "Empty key fields"), h, []).
Proof.
  intros Hne Hkf. unfold update_many. erewrite bind_raise; [done|].
  by apply update_many_no_key.
Qed.

Lemma upsert_no_key model objects keys (skip_update : bool) h :
  objects ≠ [] →
  key_fields_of model (keys_or keys [pk_name model]) = [] →
  insert_or_update_many quote_name fetchall managed model objects keys
    skip_update h
  = (Raise (AssertionError "Empty key fields"), h, []).
Proof.
  intros Hne Hkf. unfold insert_or_update_many.
  rewrite bool_decide_false by done. by rewrite Hkf.
Qed.

(** X1.  On a non-empty batch [insert_many] sends one [executemany] of the
    insert statement and nothing else to the store before the commit: no
    query, no deduplication.  There is one row per record of the batch, in
    batch order, and each row holds one value per field that is not
    auto-generated; the row of a record without a [presave] method is read
    from its attributes as they are. *)
Theorem insert_many_rows model objects h :
  let fs := _model_fields model in
  objects ≠ [] →
  ∃ rows h',
    insert_many quote_name managed model objects h
    = (Ok tt, h',
       (Presave <$> hooked h objects)
         ++ [ExecuteMany (insert_sql quote_name model) rows]
         ++ (if managed then [] else [Commit]))
    ∧ length rows = length objects
    ∧ Forall2 (prepared h fs) objects rows
    ∧ Forall (λ row, length row = length fs) rows
    ∧ (∀ f, f ∈ fs ↔ f ∈ fields model ∧ is_auto f = false)
    ∧ (∀ i o row,
         objects !! i = Some o → rows !! i = Some row →
         presave (h o) = None →
         row = map (λ f, db_prep_save f (attrs (h o))) fs).
Proof.
  intros fs Hne.
  destruct (insert_many_list_run quote_name model objects h Hne)
    as (rows & h' & Hrun & _ & Hrows).
  exists rows, h'. split; [|split; [|split; [|split; [|split]]]].
  - unfold insert_many.
    erewrite bind_ok_ok; [| apply Hrun | apply commit_unless_managed_run].
    by rewrite <- (assoc_L (++)).
  - symmetry. by eapply Forall2_length.
  - done.
  - eapply Forall2_Forall_r; [apply Hrows|].
    apply Forall_forall. intros o _ row. apply prepared_length.
  - intros f. unfold fs, _model_fields. rewrite list_elem_of_filter.
    destruct (is_auto f); simpl; naive_solver.
  - intros i o row Ho Hrow Hno.
    apply (prepared_no_presave h fs o row Hno).
    by eapply Forall2_lookup_lr.
Qed.

(** X3.  Inside a transaction managed by the caller no operation ever
    commits, whatever the batch.  Outside one, [insert_many] commits once
    for every batch, the empty one included; [update_many] commits once
    unless it raises; [insert_or_update_many] commits once unless the batch
    is empty or it raises. *)
Theorem commit_discipline model objects keys (skip_update : bool) h :
  let kf := key_fields_of model (keys_or keys [pk_name model]) in
  commits (events_of (insert_many quote_name managed model objects h))
  = (if managed then 0 else 1)
  ∧ commits (events_of (update_many quote_name managed model objects keys h))
    = (if managed then 0
       else if decide (objects ≠ [] ∧ kf = []) then 0 else 1)
  ∧ commits
      (events_of
         (insert_or_update_many quote_name fetchall managed model objects
            keys skip_update h))
    = (if managed then 0
       else if decide (objects = [] ∨ kf = []) then 0 else 1).
Proof.
  intros kf. split; [|split].
  - destruct (decide (objects = [])) as [->|Hne].
    + by destruct managed.
    + destruct (insert_many_list_run quote_name model objects h Hne)
        as (rows & h' & Hrun & _).
      unfold insert_many.
      erewrite bind_ok_ok; [| apply Hrun | apply commit_unless_managed_run].
      unfold events_of. cbn [snd].
      rewrite !commits_app, commits_presaves. by destruct managed.
  - destruct (decide (objects = [])) as [->|Hne].
    + rewrite decide_False by tauto. by destruct managed.
    + destruct (decide (kf = [])) as [Hkf|Hkf].
      * rewrite decide_True by done.
        rewrite (update_many_public_no_key model objects keys h Hne Hkf).
        by destruct managed.
      * rewrite decide_False by tauto.
        destruct (update_many_run quote_name model objects keys h Hne Hkf)
          as (rows & h' & Hrun & _).
        unfold update_many.
        erewrite bind_ok_ok;
          [| apply Hrun | apply commit_unless_managed_run].
        unfold events_of. cbn [snd].
        rewrite !commits_app, commits_presaves. by destruct managed.
  - destruct (decide (objects = [])) as [->|Hne].
    + rewrite decide_True by tauto. by destruct managed.
    + destruct (decide (kf = [])) as [Hkf|Hkf].
      * rewrite decide_True by tauto.
        rewrite (upsert_no_key model objects keys skip_update h Hne Hkf).
        by destruct managed.
      * rewrite decide_False by tauto.
        destruct (upsert_run quote_name fetchall managed model objects keys
                    skip_update h Hne Hkf)
          as (oks' & h1' & urows & surv & rows & h'' & ps
              & _ & _ & _ & _ & Hrest).
        cbv zeta in Hrest. destruct Hrest as (_ & _ & _ & _ & Hrun).
        rewrite Hrun. unfold events_of. cbn [snd].
        rewrite !commits_app, !commits_presaves.
        assert (commits
                  (if skip_update then []
                   else (Presave <$> hooked h
                           (update_objects_of oks'
                              (list_to_set
                                 (fetchall
                                    (select_sql quote_name model
                                       (keys_or keys [pk_name model])
                                       (length objects))
                                    (concat (oks'.*2))))))
                          ++ (if decide
                                   (update_objects_of oks'
                                      (list_to_set
                                         (fetchall
                                            (select_sql quote_name model
                                               (keys_or keys [pk_name model])
                                               (length objects))
                                            (concat (oks'.*2)))) = [])
                              then []
                              else [ExecuteMany
                                      (update_sql quote_name model
                                         (keys_or keys [pk_name model]))
                                      urows]))
                = 0) as ->.
        { destruct skip_update; [done|].
          rewrite commits_app, commits_presaves. by destruct (decide _). }
        by destruct managed.
Qed.

Lemma bind_ext {A B} (m m' : M Attrs Value A) (f g : A → M Attrs Value B) h :
  (∀ a h1, f a h1 = g a h1) → m h = m' h → (m ≫= f) h = (m' ≫= g) h.
Proof.
  intros Hfg Hm. unfold mbind, M_bind. rewrite Hm.
  destruct (m' h) as [[[a|e] h1] ev1]; [|done]. by rewrite Hfg.
Qed.

Lemma update_many_keys_ext model objects keys keys' h :
  key_fields_of model (keys_or keys [pk_name model])
  = key_fields_of model (keys_or keys' [pk_name model]) →
  value_fields_of model (keys_or keys [pk_name model])
  = value_fields_of model (keys_or keys' [pk_name model]) →
  _update_many quote_name model objects keys h
  = _update_many quote_name model objects keys' h.
Proof.
  intros Hk Hv. unfold _update_many, update_sql. by rewrite Hk, Hv.
Qed.

(** X4.  [keys] is used as a set of names of fields of the model: two key
    lists that name the same fields of the model give the same run of
    [update_many] and of [insert_or_update_many], whatever their order,
    their repetitions and the names in them that match no field; an empty
    list stands for the primary key, like [None]. *)
Theorem keys_as_set model objects keys keys' (skip_update : bool) h :
  (∀ f, f ∈ fields model →
        name f ∈ keys_or keys [pk_name model]
        ↔ name f ∈ keys_or keys' [pk_name model]) →
  update_many quote_name managed model objects keys h
  = update_many quote_name managed model objects keys' h
  ∧ insert_or_update_many quote_name fetchall managed model objects keys
      skip_update h
    = insert_or_update_many quote_name fetchall managed model objects keys'
        skip_update h.
Proof.
  intros Hsame.
  set (ks := keys_or keys [pk_name model]) in *.
  set (ks' := keys_or keys' [pk_name model]) in *.
  assert (key_fields_of model ks = key_fields_of model ks') as Hk.
  { unfold key_fields_of. by apply filter_ext_elem. }
  assert (value_fields_of model ks = value_fields_of model ks') as Hv.
  { unfold value_fields_of. apply filter_ext_elem. intros f Hf.
    unfold _model_fields in Hf. apply list_elem_of_filter in Hf as [_ Hf].
    by rewrite (Hsame f Hf). }
  assert (∀ l h0, _update_many quote_name model l (Some ks) h0
                  = _update_many quote_name model l (Some ks') h0) as Hupd.
  { intros l h0. apply update_many_keys_ext; unfold ks, ks';
      by rewrite !keys_or_idem. }
  split.
  - unfold update_many. apply bind_ext; [done|].
    by apply update_many_keys_ext.
  - unfold insert_or_update_many. fold ks ks'.
    unfold select_sql. rewrite Hk.
    destruct (bool_decide (objects = [])); [done|].
    apply bind_ext; [|done]. intros [] h0.
    apply bind_ext; [|done]. intros oks h1.
    apply bind_ext; [|done]. intros [] h2.
    apply bind_ext; [done|].
    destruct skip_update; [done|]. apply Hupd.
Qed.

(** X5.  Nothing stops [update_many] when every field that is not
    auto-generated is in the key set: the statement it executes then has
    an empty SET clause, and each row holds the key values only. *)
Theorem update_empty_set_clause model objects keys h :
  let ks := keys_or keys [pk_name model] in
  let kf := key_fields_of model ks in
  objects ≠ [] → kf ≠ [] →
  (∀ f, f ∈ fields model → is_auto f = false → name f ∈ ks) →
  ∃ rows h',
    update_many quote_name managed model objects keys h
    = (Ok tt, h',
       (Presave <$> hooked h objects)
         ++ [ExecuteMany
               ("UPDATE " +:+ db_table model +:+ " SET " +:+ " WHERE "
                  +:+ join " AND "
                        (map (λ f, quote_name (column f) +:+ "=%s") kf))
               rows]
         ++ (if managed then [] else [Commit]))
    ∧ Forall2 (prepared h kf) objects rows.
Proof.
  intros ks kf Hne Hkf Hall.
  assert (value_fields_of model ks = []) as Hvf.
  { unfold value_fields_of, _model_fields.
    induction (fields model) as [|f l IH]; [done|].
    rewrite filter_cons. destruct (decide (negb (is_auto f))) as [Hf|Hf].
    - rewrite filter_cons_False.
      + apply IH. intros g Hg. apply Hall. by right.
      + intros Hn. apply Hn, Hall; [by left|]. by destruct (is_auto f).
    - apply IH. intros g Hg. apply Hall. by right. }
  destruct (update_many_run quote_name model objects keys h Hne Hkf)
    as (rows & h' & Hrun & _ & Hrows).
  fold ks kf in Hrun, Hrows. rewrite Hvf in Hrows.
  exists rows, h'. split; [|done].
  unfold update_many.
  erewrite bind_ok_ok; [| apply Hrun | apply commit_unless_managed_run].
  unfold update_sql. fold ks kf. rewrite Hvf.
  by rewrite <- (assoc_L (++)).
Qed.

(** X6.  When the key-tuples prepared during the scan are pairwise
    distinct the deduplicator drops nothing: it yields every record of its
    input, in reverse order. *)
Theorem filter_objects_distinct_keys (kf : list (Field Attrs Value)) objects h
    rows h' evs :
  mapM (_prep_values kf) (reverse objects) h = (Ok rows, h', evs) →
  NoDup rows →
  for_gen (_filter_objects objects kf) mret h = (Ok (reverse objects), h', evs).
Proof.
  intros Hmap Hnd.
  destruct (filter_loop_drain kf (reverse objects) ∅ h)
    as (scan & h'' & Hfst & Hmap' & Hgen).
  rewrite Hmap in Hmap'. injection Hmap' as -> -> ->.
  rewrite for_gen_filter_objects, Hgen.
  rewrite first_seen_distinct; [by rewrite Hfst | done | set_solver].
Qed.

(** X7.  [insert_many] and [update_many] call the [presave] method of a
    record once for each occurrence of the record in the batch, and never
    for a record without the method; [update_many] calls none when it
    raises for want of a key field. *)
Theorem presave_once_per_record model objects keys h o :
  let kf := key_fields_of model (keys_or keys [pk_name model]) in
  let occurrences := length (filter (λ x, x = o) objects) in
  presave_calls o (events_of (insert_many quote_name managed model objects h))
  = (if decide (has_presave h o) then occurrences else 0)
  ∧ presave_calls o
      (events_of (update_many quote_name managed model objects keys h))
    = (if decide (has_presave h o ∧ kf ≠ []) then occurrences else 0).
Proof.
  intros kf occurrences.
  assert (length (filter (λ x, x = o) (hooked h objects))
          = if decide (has_presave h o) then occurrences else 0) as Hcount.
  { destruct (decide (has_presave h o)).
    - by apply hooked_count.
    - by apply hooked_count_none. }
  assert (presave_calls o (if managed then [] else [Commit : Event Value]) = 0)
    as Hcommit by (by destruct managed).
  split.
  - destruct (decide (objects = [])) as [->|Hne].
    + unfold occurrences. destruct managed, (decide _); done.
    + destruct (insert_many_list_run quote_name model objects h Hne)
        as (rows & h' & Hrun & _).
      unfold insert_many.
      erewrite bind_ok_ok; [| apply Hrun | apply commit_unless_managed_run].
      unfold events_of. cbn [snd].
      rewrite !presave_calls_app, presave_calls_presaves, Hcommit, Hcount.
      rewrite presave_calls_round_trip by done. lia.
  - destruct (decide (objects = [])) as [->|Hne].
    + unfold update_many.
      erewrite bind_ok_ok;
        [| apply update_many_nil | apply commit_unless_managed_run].
      unfold events_of. cbn [snd app]. rewrite Hcommit.
      unfold occurrences.
      by destruct (decide (has_presave h o ∧ kf ≠ [])).
    + destruct (decide (kf = [])) as [Hkf|Hkf].
      * rewrite (update_many_public_no_key model objects keys h Hne Hkf).
        rewrite decide_False by tauto. done.
      * destruct (update_many_run quote_name model objects keys h Hne Hkf)
          as (rows & h' & Hrun & _).
        unfold update_many.
        erewrite bind_ok_ok; [| apply Hrun | apply commit_unless_managed_run].
        unfold events_of. cbn [snd].
        rewrite !presave_calls_app, presave_calls_presaves, Hcommit, Hcount.
        rewrite presave_calls_round_trip by done.
        destruct (decide (has_presave h o)).
        -- rewrite decide_True by done. lia.
        -- rewrite decide_False by tauto. lia.
Qed.

Lemma length_concat_const {A} (l : list (list A)) (n : nat) :
  Forall (λ r, length r = n) l → length (concat l) = length l * n.
Proof.
  induction 1 as [|r l Hr _ IH]; [done|].
  simpl. rewrite length_app, IH, Hr. lia.
Qed.

(** X10.  The existence select of [insert_or_update_many] is executed once,
    for the whole batch, with one parameter per key field and record:
    [len(objects) * len(key_fields)] parameters, as many as the
    placeholders of its statement. *)
Theorem select_parameter_count model objects keys (skip_update : bool) h :
  let ks := keys_or keys [pk_name model] in
  let kf := key_fields_of model ks in
  objects ≠ [] → kf ≠ [] →
  ∃ params evs h',
    insert_or_update_many quote_name fetchall managed model objects keys
      skip_update h
    = (Ok tt, h',
       (Presave <$> hooked h objects)
         ++ [Execute
               ("SELECT " +:+ join "," (map (λ f, quote_name (column f)) kf)
                  +:+ " FROM " +:+ db_table model +:+ " WHERE ("
                  +:+ join "," (map (λ f, quote_name (column f)) kf)
                  +:+ ") IN ("
                  +:+ join ","
                        (replicate (length objects)
                           ("(" +:+ join "," (replicate (length kf) "%s")
                              +:+ ")"))
                  +:+ ")")
               params]
         ++ evs)
    ∧ length params = length objects * length kf
    ∧ Forall (λ e, match e with Execute _ _ => False | _ => True end) evs.
Proof.
  intros ks kf Hne Hkf.
  destruct (upsert_run quote_name fetchall managed model objects keys
              skip_update h Hne Hkf)
    as (oks & h1 & urows & surv & rows & h' & ps & _ & Hfst & Hks & _ & Hrest).
  cbv zeta in Hrest. destruct Hrest as (_ & _ & _ & _ & Hrun).
  eexists _, _, h'. split; [apply Hrun|]. split.
  - rewrite (length_concat_const _ (length kf)).
    + by rewrite length_fmap, <- Hfst, length_fmap.
    + eapply Forall2_Forall_r; [apply Hks|].
      apply Forall_forall. intros o _ row. apply prepared_length.
  - assert (∀ l : list oid,
      Forall (λ e : Event Value,
                match e with Execute _ _ => False | _ => True end)
        (Presave <$> l)) as Hpres.
    { intros l. apply Forall_fmap, Forall_forall. by intros. }
    apply Forall_app. split.
    + destruct skip_update; [constructor|].
      apply Forall_app. split; [apply Hpres|].
      destruct (decide _); repeat constructor.
    + apply Forall_app. split; [apply Hpres|].
      apply Forall_app. split; [repeat constructor|].
      destruct managed; repeat constructor.
Qed.

Lemma update_many_no_hook model (l : list oid) keys h :
  let ks := keys_or keys [pk_name model] in
  l ≠ [] → key_fields_of model ks ≠ [] →
  (∀ o, o ∈ l → presave (h o) = None) →
  _update_many quote_name model l keys h
  = (Ok tt, h,
     [ExecuteMany (update_sql quote_name model ks)
        ((λ o, row_of (value_fields_of model ks ++ key_fields_of model ks)
                 (attrs (h o))) <$> l)]).
Proof.
  intros ks Hne Hkf Hno. unfold _update_many. fold ks.
  rewrite bool_decide_false by done.
  rewrite (bool_decide_true (key_fields_of model ks ≠ [])) by done.
  unfold assert.
  erewrite bind_ok_ok; [| reflexivity |].
  2:{ erewrite bind_ok_ok; [| by apply mapM_prep_no_hook | reflexivity].
      reflexivity. }
  done.
Qed.

Lemma first_seen_fmap_keys (key_of : oid → list Value) (l : list oid)
    (keyset : gset (list Value)) :
  key_of <$> (first_seen keyset ((λ o, (o, key_of o)) <$> l)).*1
  = (first_seen keyset ((λ o, (o, key_of o)) <$> l)).*2.
Proof.
  revert keyset. induction l as [|o l IH]; intros keyset; [done|].
  rewrite fmap_cons. cbn [first_seen snd].
  destruct (decide (key_of o ∈ keyset)); [apply IH|].
  rewrite !fmap_cons. cbn [fst snd]. f_equal. apply IH.
Qed.

Lemma upsert_no_hook_run model objects keys (skip_update : bool) h :
  let ks := keys_or keys [pk_name model] in
  let kf := key_fields_of model ks in
  let sql := select_sql quote_name model ks (length objects) in
  let key_of o := row_of kf (attrs (h o)) in
  let existing : gset (list Value) :=
    list_to_set (fetchall sql (concat (key_of <$> objects))) in
  let upd := filter (λ o, key_of o ∈ existing) objects in
  let ins := filter (λ o, key_of o ∉ existing) objects in
  let winners :=
    (first_seen ∅ ((λ o, (o, key_of o)) <$> reverse ins)).*1 in
  objects ≠ [] → kf ≠ [] →
  (∀ o, o ∈ objects → presave (h o) = None) →
  insert_or_update_many quote_name fetchall managed model objects keys
    skip_update h
  = (Ok tt, h,
     [Execute sql (concat (key_of <$> objects))]
       ++ (if skip_update then []
           else if decide (upd = []) then []
           else [ExecuteMany (update_sql quote_name model ks)
                   ((λ o, row_of (value_fields_of model ks ++ kf)
                            (attrs (h o))) <$> upd)])
       ++ [ExecuteMany (insert_sql quote_name model)
             ((λ o, row_of (_model_fields model) (attrs (h o))) <$> winners)]
       ++ (if managed then [] else [Commit])).
Proof.
  intros ks kf sql key_of existing upd ins winners Hne Hkf Hno.
  set (pair := λ o, (o, key_of o)).
  set (oks := pair <$> objects).
  assert (oks.*2 = key_of <$> objects) as Hsnd.
  { unfold oks. by rewrite <- list_fmap_compose. }
  assert (object_keys_of kf objects h = (Ok oks, h, [])) as Hrun1
    by (by apply object_keys_no_hook).
  destruct (update_objects_fmap key_of objects existing) as [Hupd Hins].
  fold pair oks upd ins in Hupd, Hins.
  assert (∀ o, o ∈ upd → presave (h o) = None) as Hnou.
  { intros o [_ Ho]%list_elem_of_filter. by apply Hno. }
  assert (∀ o, o ∈ reverse ins → presave (h o) = None) as Hnoi.
  { intros o [_ Ho]%elem_of_reverse%list_elem_of_filter. by apply Hno. }
  assert ((if negb skip_update
           then _update_many quote_name model upd (Some ks)
           else mret tt) h
          = (Ok tt, h,
             if skip_update then []
             else if decide (upd = []) then []
             else [ExecuteMany (update_sql quote_name model ks)
                     ((λ o, row_of (value_fields_of model ks ++ kf)
                              (attrs (h o))) <$> upd)])) as Hrun2.
  { destruct skip_update; [done|]. cbn [negb].
    destruct (decide (upd = [])) as [->|Hupd']; [done|].
    pose proof (update_many_no_hook model upd (Some ks) h) as Hu.
    cbv zeta in Hu. unfold ks in Hu |- *. rewrite keys_or_idem in Hu by done.
    by apply Hu. }
  assert (_insert_many quote_name model (PyGen (_filter_objects ins kf)) h
          = (Ok tt, h,
             [ExecuteMany (insert_sql quote_name model)
                ((λ o, row_of (_model_fields model) (attrs (h o)))
                   <$> winners)])) as Hrun3.
  { unfold _insert_many. cbn [truthy negb]. unfold for_each.
    erewrite bind_ok_ok; [| | reflexivity].
    2:{ rewrite for_gen_filter_objects. by apply filter_loop_no_hook. }
    done. }
  unfold insert_or_update_many. fold ks kf sql.
  rewrite bool_decide_false by done.
  rewrite (bool_decide_true (kf ≠ [])) by done. unfold assert.
  erewrite bind_ok_ok; [| reflexivity |].
  2:{ erewrite bind_ok_ok; [| apply Hrun1 |].
      2:{ erewrite bind_ok_ok; [| reflexivity |].
          2:{ rewrite Hsnd. fold existing. rewrite Hupd, Hins.
              erewrite bind_ok_ok; [| apply Hrun2 |].
              2:{ erewrite bind_ok_ok; [| apply Hrun3 |].
                  2:{ apply commit_unless_managed_run. }
                  reflexivity. }
              reflexivity. }
          reflexivity. }
      reflexivity. }
  by rewrite Hsnd.
Qed.

(** X9.  On a batch of records without a [presave] method
    [insert_or_update_many] returns and sends: the existence select with
    the key-tuples of the batch in order; unless [skip_update] is set or no
    key-tuple exists, one update with a row per record whose key-tuple
    exists, in batch order and without deduplication; one insert with a
    row per record of [winners], which holds, latest first, one record for
    each key-tuple that does not exist, the last record of the batch with
    that key-tuple; then the commit. *)
Theorem upsert_without_hooks model objects keys (skip_update : bool) h :
  let ks := keys_or keys [pk_name model] in
  let kf := key_fields_of model ks in
  let sql := select_sql quote_name model ks (length objects) in
  let key_of o := row_of kf (attrs (h o)) in
  let existing : gset (list Value) :=
    list_to_set (fetchall sql (concat (key_of <$> objects))) in
  let upd := filter (λ o, key_of o ∈ existing) objects in
  let ins := filter (λ o, key_of o ∉ existing) objects in
  let winners :=
    (first_seen ∅ ((λ o, (o, key_of o)) <$> reverse ins)).*1 in
  objects ≠ [] → kf ≠ [] →
  (∀ o, o ∈ objects → presave (h o) = None) →
  result_of
    (insert_or_update_many quote_name fetchall managed model objects keys
       skip_update h)
  = Ok tt
  ∧ events_of
      (insert_or_update_many quote_name fetchall managed model objects keys
         skip_update h)
    = [Execute sql (concat (key_of <$> objects))]
        ++ (if skip_update then []
            else if decide (upd = []) then []
            else [ExecuteMany (update_sql quote_name model ks)
                    ((λ o, row_of (value_fields_of model ks ++ kf)
                             (attrs (h o))) <$> upd)])
        ++ [ExecuteMany (insert_sql quote_name model)
              ((λ o, row_of (_model_fields model) (attrs (h o))) <$> winners)]
        ++ (if managed then [] else [Commit])
  ∧ sublist winners (reverse ins)
  ∧ NoDup (key_of <$> winners)
  ∧ (∀ k, k ∈ key_of <$> winners ↔ k ∈ key_of <$> ins)
  ∧ (∀ l1 o l2, ins = l1 ++ o :: l2 → key_of o ∉ key_of <$> l2 →
                o ∈ winners).
Proof.
  intros ks kf sql key_of existing upd ins winners Hne Hkf Hno.
  set (pair := λ o, (o, key_of o)).
  pose proof (upsert_no_hook_run model objects keys skip_update h Hne Hkf Hno)
    as Hrun.
  cbv zeta in Hrun. fold ks kf sql key_of existing upd ins winners in Hrun.
  rewrite Hrun. split; [done|]. split; [done|]. split; [|split; [|split]].
  - unfold winners.
    assert (reverse ins = (pair <$> reverse ins).*1) as Hfst.
    { rewrite <- list_fmap_compose. symmetry. apply list_fmap_id. }
    rewrite Hfst at 2. apply (fmap_sublist fst), first_seen_sublist.
  - unfold winners. rewrite first_seen_fmap_keys. apply first_seen_NoDup.
  - intros k. unfold winners. rewrite first_seen_fmap_keys, first_seen_keys.
    rewrite <- list_fmap_compose, fmap_reverse, elem_of_reverse.
    set_solver.
  - intros l1 o l2 Heq Hl2. unfold winners.
    apply (list_elem_of_fmap_2 fst _ (o, key_of o)).
    apply first_seen_elem. split; [set_solver|].
    exists (pair <$> reverse l2), (pair <$> reverse l1). split.
    + rewrite Heq, reverse_app, reverse_cons, <- (assoc_L (++)).
      by rewrite fmap_app, fmap_app.
    + rewrite <- list_fmap_compose, fmap_reverse, elem_of_reverse. done.
Qed.

Lemma filter_all {A} (P : A → Prop) `{!∀ x, Decision (P x)} (l : list A) :
  (∀ x, x ∈ l → P x) → filter P l = l.
Proof.
  induction l as [|x l IH]; intros Hall; [done|].
  rewrite filter_cons_True by (apply Hall; by left).
  f_equal. apply IH. intros y Hy. apply Hall. by right.
Qed.

Lemma filter_none {A} (P : A → Prop) `{!∀ x, Decision (P x)} (l : list A) :
  (∀ x, x ∈ l → ¬ P x) → filter P l = [].
Proof.
  induction l as [|x l IH]; intros Hall; [done|].
  rewrite filter_cons_False by (apply Hall; by left).
  apply IH. intros y Hy. apply Hall. by right.
Qed.

Lemma fmap_pair_fst {A B} (f : A → B) (l : list A) :
  ((λ x, (x, f x)) <$> l).*1 = l.
Proof. induction l as [|x l IH]; [done|]. cbn. by f_equal. Qed.

Lemma fmap_pair_snd {A B} (f : A → B) (l : list A) :
  ((λ x, (x, f x)) <$> l).*2 = f <$> l.
Proof. induction l as [|x l IH]; [done|]. cbn. by f_equal. Qed.

Lemma insert_many_no_hook model (l : list oid) h :
  l ≠ [] → (∀ o, o ∈ l → presave (h o) = None) →
  insert_many quote_name managed model l h
  = (Ok tt, h,
     [ExecuteMany (insert_sql quote_name model)
        ((λ o, row_of (_model_fields model) (attrs (h o))) <$> l)]
       ++ (if managed then [] else [Commit])).
Proof.
  intros Hne Hno. unfold insert_many.
  erewrite bind_ok_ok; [| | apply commit_unless_managed_run]; [done|].
  unfold _insert_many. destruct l as [|o l]; [done|].
  cbn [truthy negb]. unfold for_each.
  erewrite bind_ok_ok; [| by apply mapM_prep_no_hook | reflexivity]. done.
Qed.

(** X11.  Into a table that holds none of the keys, and for records
    without a [presave] method whose key-tuples are pairwise distinct,
    [insert_or_update_many] is the existence select followed by
    [insert_many] of the reversed batch. *)
Theorem upsert_new_records_is_insert model objects keys (skip_update : bool) h :
  let ks := keys_or keys [pk_name model] in
  let kf := key_fields_of model ks in
  let sql := select_sql quote_name model ks (length objects) in
  let key_of o := row_of kf (attrs (h o)) in
  objects ≠ [] → kf ≠ [] →
  (∀ o, o ∈ objects → presave (h o) = None) →
  NoDup (key_of <$> objects) →
  (∀ k, k ∈ key_of <$> objects →
        k ∉ fetchall sql (concat (key_of <$> objects))) →
  insert_or_update_many quote_name fetchall managed model objects keys
    skip_update h
  = (Ok tt, h,
     [Execute sql (concat (key_of <$> objects))]
       ++ events_of
            (insert_many quote_name managed model (reverse objects) h))
  ∧ insert_many quote_name managed model (reverse objects) h
    = (Ok tt, h,
       [ExecuteMany (insert_sql quote_name model)
          ((λ o, row_of (_model_fields model) (attrs (h o)))
             <$> reverse objects)]
         ++ (if managed then [] else [Commit])).
Proof.
  intros ks kf sql key_of Hne Hkf Hno Hnd Hnew.
  assert (insert_many quote_name managed model (reverse objects) h
          = (Ok tt, h,
             [ExecuteMany (insert_sql quote_name model)
                ((λ o, row_of (_model_fields model) (attrs (h o)))
                   <$> reverse objects)]
               ++ (if managed then [] else [Commit]))) as Hins.
  { apply insert_many_no_hook.
    - intros Hrev. apply Hne. by rewrite <- (reverse_involutive objects), Hrev.
    - intros o Ho. rewrite elem_of_reverse in Ho. by apply Hno. }
  split; [|done]. rewrite Hins. unfold events_of. cbn [snd].
  pose proof (upsert_no_hook_run model objects keys skip_update h Hne Hkf Hno)
    as Hrun.
  cbv zeta in Hrun.
  rewrite Hrun. fold ks kf sql key_of.
  set (existing := list_to_set (fetchall sql (concat (key_of <$> objects)))
         : gset (list Value)).
  assert (∀ o, o ∈ objects → key_of o ∉ existing) as Hnot.
  { intros o Ho. unfold existing. rewrite elem_of_list_to_set.
    apply Hnew. by apply list_elem_of_fmap_2. }
  rewrite (filter_none (λ o, key_of o ∈ existing)) by done.
  rewrite (filter_all (λ o, key_of o ∉ existing)) by done.
  rewrite first_seen_distinct.
  - rewrite fmap_pair_fst.
    destruct skip_update; [done|]. by rewrite decide_True.
  - rewrite fmap_pair_snd, fmap_reverse. by rewrite reverse_Permutation.
  - set_solver.
Qed.

(** X12.  When the key-tuple of every record is already in the table, and
    no record has a [presave] method, [insert_or_update_many] without
    [skip_update] is the existence select, then the statement of
    [update_many] over the whole batch, in batch order, then an insert
    with no row, then the commit. *)
Theorem upsert_known_records_is_update model objects keys h :
  let ks := keys_or keys [pk_name model] in
  let kf := key_fields_of model ks in
  let sql := select_sql quote_name model ks (length objects) in
  let key_of o := row_of kf (attrs (h o)) in
  objects ≠ [] → kf ≠ [] →
  (∀ o, o ∈ objects → presave (h o) = None) →
  (∀ k, k ∈ key_of <$> objects →
        k ∈ fetchall sql (concat (key_of <$> objects))) →
  insert_or_update_many quote_name fetchall managed model objects keys false h
  = (Ok tt, h,
     [Execute sql (concat (key_of <$> objects))]
       ++ events_of (_update_many quote_name model objects keys h)
       ++ [ExecuteMany (insert_sql quote_name model) []]
       ++ (if managed then [] else [Commit]))
  ∧ _update_many quote_name model objects keys h
    = (Ok tt, h,
       [ExecuteMany (update_sql quote_name model ks)
          ((λ o, row_of (value_fields_of model ks ++ kf) (attrs (h o)))
             <$> objects)]).
Proof.
  intros ks kf sql key_of Hne Hkf Hno Hknown.
  pose proof (update_many_no_hook model objects keys h Hne Hkf Hno) as Hupd.
  cbv zeta in Hupd. fold ks kf in Hupd.
  split; [|done]. rewrite Hupd. unfold events_of. cbn [snd].
  pose proof (upsert_no_hook_run model objects keys false h Hne Hkf Hno)
    as Hrun.
  cbv zeta in Hrun.
  rewrite Hrun. fold ks kf sql key_of.
  set (existing := list_to_set (fetchall sql (concat (key_of <$> objects)))
         : gset (list Value)).
  assert (∀ o, o ∈ objects → key_of o ∈ existing) as Hin.
  { intros o Ho. unfold existing. rewrite elem_of_list_to_set.
    apply Hknown. by apply list_elem_of_fmap_2. }
  rewrite (filter_all (λ o, key_of o ∈ existing)) by done.
  rewrite (filter_none (λ o, key_of o ∉ existing)) by (intros o Ho Hn; apply Hn; by apply Hin).
  by rewrite decide_False.
Qed.

End MoreResults.

(** ** Batches of distinct records: how often [presave] has run *)

Section HookCounts.
Context {Attrs Value : Type} `{Countable Value}.
Context (quote_name : string → string).
Context (fetchall : string → list Value → list (list Value)).
Context (managed : bool).
Implicit Types (h : Heap Attrs) (o : oid) (fs kf : list (Field Attrs Value)).
Implicit Types (model : Model Attrs Value) (keyset : gset (list Value)).

Lemma fmap_ext_elem {A B} (f g : A → B) (l : list A) :
  (∀ x, x ∈ l → f x = g x) → f <$> l = g <$> l.
Proof.
  induction l as [|x l IH]; intros Heq; [done|].
  rewrite !fmap_cons. f_equal; [apply Heq; by left|].
  apply IH. intros y Hy. apply Heq. by right.
Qed.

Lemma hooked_after_presave o h (l : list oid) :
  hooked (after_presave o h) l = hooked h l.
Proof. apply hooked_same_hooks, evolves_same_hooks, evolves_after_presave. Qed.

Lemma mapM_prep_nodup fs (l : list oid) h :
  NoDup l →
  ∃ h',
    mapM (_prep_values fs) l h
    = (Ok ((λ o, row_of fs (attrs (presave_step (h o)))) <$> l), h',
       Presave <$> hooked h l)
    ∧ (∀ o, o ∈ l → h' o = presave_step (h o))
    ∧ (∀ o, o ∉ l → h' o = h o).
Proof.
  revert h. induction l as [|o l IH]; intros h Hnd.
  { exists h. split; [done|]. split; [|done]. by intros o Ho%elem_of_nil. }
  apply list.NoDup_cons in Hnd as [Hol Hnd].
  set (h1 := after_presave o h).
  destruct (IH h1 Hnd) as (h' & Hrun & Hin & Hout).
  exists h'. split; [|split].
  - change (mapM (_prep_values fs) (o :: l))
      with (y ← _prep_values fs o; k ← mapM (_prep_values fs) l; mret (y :: k)).
    erewrite bind_ok_ok; [| apply prep_values_run |].
    2:{ fold h1. erewrite bind_ok_ok; [| apply Hrun | reflexivity].
        reflexivity. }
    rewrite app_nil_r. unfold h1 at 1. rewrite after_presave_same.
    rewrite fmap_cons. f_equal; [f_equal|].
    + f_equal. f_equal. apply fmap_ext_elem. intros o' Ho'.
      unfold h1. rewrite after_presave_other; [done|]. by intros ->.
    + unfold h1. rewrite hooked_after_presave.
      change (o :: l) with ([o] ++ l). by rewrite hooked_app, fmap_app.
  - intros o' [->|Ho']%elem_of_cons.
    + rewrite Hout by done. apply after_presave_same.
    + rewrite Hin by done. unfold h1.
      rewrite after_presave_other; [done|]. by intros ->.
  - intros o' Ho'. apply not_elem_of_cons in Ho' as [Hne Ho'].
    rewrite Hout by done. by apply after_presave_other.
Qed.

Lemma object_keys_nodup fs (l : list oid) h :
  NoDup l →
  ∃ h',
    object_keys_of fs l h
    = (Ok ((λ o, (o, row_of fs (attrs (presave_step (h o))))) <$> l), h',
       Presave <$> hooked h l)
    ∧ (∀ o, o ∈ l → h' o = presave_step (h o))
    ∧ (∀ o, o ∉ l → h' o = h o).
Proof.
  unfold object_keys_of.
  set (body := λ o, k ← _prep_values fs o; mret (o, k)).
  revert h. induction l as [|o l IH]; intros h Hnd.
  { exists h. split; [done|]. split; [|done]. by intros o Ho%elem_of_nil. }
  apply list.NoDup_cons in Hnd as [Hol Hnd].
  set (h1 := after_presave o h).
  destruct (IH h1 Hnd) as (h' & Hrun & Hin & Hout).
  exists h'. split; [|split].
  - change (mapM body (o :: l))
      with (y ← body o; k ← mapM body l; mret (y :: k)).
    erewrite bind_ok_ok.
    2:{ unfold body. erewrite bind_ok_ok; [| apply prep_values_run | reflexivity].
        reflexivity. }
    2:{ fold h1. erewrite bind_ok_ok; [| apply Hrun | reflexivity].
        reflexivity. }
    rewrite !app_nil_r. unfold h1 at 1. rewrite after_presave_same.
    rewrite fmap_cons. f_equal; [f_equal|].
    + f_equal. f_equal. apply fmap_ext_elem. intros o' Ho'.
      unfold h1. rewrite after_presave_other; [done|]. by intros ->.
    + unfold h1. rewrite hooked_after_presave.
      change (o :: l) with ([o] ++ l). by rewrite hooked_app, fmap_app.
  - intros o' [->|Ho']%elem_of_cons.
    + rewrite Hout by done. apply after_presave_same.
    + rewrite Hin by done. unfold h1.
      rewrite after_presave_other; [done|]. by intros ->.
  - intros o' Ho'. apply not_elem_of_cons in Ho' as [Hne Ho'].
    rewrite Hout by done. by apply after_presave_other.
Qed.

Lemma update_many_nodup model (l : list oid) keys h :
  let ks := keys_or keys [pk_name model] in
  key_fields_of model ks ≠ [] → NoDup l →
  ∃ h',
    _update_many quote_name model l keys h
    = (Ok tt, h',
       (Presave <$> hooked h l)
         ++ (if decide (l = []) then []
             else [ExecuteMany (update_sql quote_name model ks)
                     ((λ o, row_of (value_fields_of model ks
                                      ++ key_fields_of model ks)
                              (attrs (presave_step (h o)))) <$> l)]))
    ∧ (∀ o, o ∈ l → h' o = presave_step (h o))
    ∧ (∀ o, o ∉ l → h' o = h o).
Proof.
  intros ks Hkf Hnd. unfold _update_many. fold ks.
  destruct (decide (l = [])) as [->|Hne].
  { exists h. split; [done|]. split; [|done]. by intros o Ho%elem_of_nil. }
  destruct (mapM_prep_nodup
              (value_fields_of model ks ++ key_fields_of model ks) l h Hnd)
    as (h' & Hrun & Hin & Hout).
  exists h'. split; [|done].
  rewrite bool_decide_false by done.
  rewrite (bool_decide_true (key_fields_of model ks ≠ [])) by done.
  unfold assert.
  erewrite bind_ok_ok; [| reflexivity |].
  2:{ erewrite bind_ok_ok; [| apply Hrun | reflexivity]. reflexivity. }
  done.
Qed.

Lemma first_seen_fst_elem keyset (scan : list (oid * list Value)) o :
  o ∈ (first_seen keyset scan).*1 → o ∈ scan.*1.
Proof.
  intros Ho. eapply elem_of_sublist; [apply Ho|].
  apply (fmap_sublist fst), first_seen_sublist.
Qed.

(** The deduplicator consumed by the insert, on distinct records: a record
    is prepared once for its key-tuple and, when it is yielded, once more
    for its row. *)
Lemma filter_loop_nodup kf fs (rest : list oid) keyset h :
  NoDup rest →
  ∃ h' ps,
    let surv :=
      (first_seen keyset
         ((λ o, (o, row_of kf (attrs (presave_step (h o))))) <$> rest)).*1 in
    for_gen (filter_loop kf rest keyset) (_prep_values fs) h
    = (Ok ((λ o, row_of fs (attrs (presave_step (presave_step (h o)))))
             <$> surv),
       h', Presave <$> ps)
    ∧ ps ≡ₚ hooked h rest ++ hooked h surv
    ∧ (∀ o, o ∈ surv → h' o = presave_step (presave_step (h o)))
    ∧ (∀ o, o ∈ rest → o ∉ surv → h' o = presave_step (h o))
    ∧ (∀ o, o ∉ rest → h' o = h o).
Proof.
  revert keyset h. induction rest as [|o rest IH]; intros keyset h Hnd.
  { exists h, []. cbn zeta. split; [done|]. split; [done|].
    split; [by intros o Ho%elem_of_nil|].
    split; [by intros o Ho%elem_of_nil | done]. }
  apply list.NoDup_cons in Hnd as [Hor Hnd].
  set (h1 := after_presave o h).
  set (k := row_of kf (attrs (presave_step (h o)))).
  assert (∀ o', o' ≠ o → h1 o' = h o') as Hh1
    by (intros o' Hne; by apply after_presave_other).
  assert (h1 o = presave_step (h o)) as Hh1o by apply after_presave_same.
  rewrite filter_loop_cons, fmap_cons. cbn [first_seen snd]. fold k.
  destruct (decide (k ∈ keyset)) as [Hin|Hnin].
  - destruct (IH keyset h1 Hnd) as (h' & ps & Hgen & Hps & Hsurv & Hrest & Hout).
    cbn zeta in Hgen, Hps, Hsurv, Hrest.
    assert ((λ o', (o', row_of kf (attrs (presave_step (h1 o'))))) <$> rest
            = (λ o', (o', row_of kf (attrs (presave_step (h o'))))) <$> rest)
      as Hscan.
    { apply fmap_ext_elem. intros o' Ho'. rewrite Hh1; [done|]. by intros ->. }
    rewrite Hscan in Hgen, Hps, Hsurv, Hrest.
    set (surv := (first_seen keyset
                    ((λ o', (o', row_of kf (attrs (presave_step (h o')))))
                       <$> rest)).*1) in *.
    assert (∀ o', o' ∈ surv → o' ∈ rest) as Hsub.
    { intros o' Ho'%first_seen_fst_elem.
      by rewrite <- list_fmap_compose, list_fmap_id in Ho'. }
    assert (o ∉ surv) as Hos by (intros Ho%Hsub; done).
    exists h', (hooked h [o] ++ ps). cbn zeta.
    split; [|split; [|split; [|split]]].
    + erewrite for_gen_run; [| | apply Hgen].
      2:{ erewrite bind_ok_ok; [| apply prep_values_run |].
          2:{ fold h1. rewrite Hh1o. fold k. rewrite decide_True by done.
              reflexivity. }
          reflexivity. }
      rewrite app_nil_r, fmap_app. f_equal. f_equal. f_equal.
      apply fmap_ext_elem. intros o' Ho'%Hsub.
      rewrite Hh1; [done|]. by intros ->.
    + rewrite Hps. unfold h1. rewrite !hooked_after_presave.
      change (o :: rest) with ([o] ++ rest). rewrite hooked_app.
      by rewrite (assoc_L (++)).
    + intros o' Ho'. rewrite Hsurv by done.
      rewrite Hh1; [done|]. apply Hsub in Ho'. by intros ->.
    + intros o' [->|Ho']%elem_of_cons Hns.
      * rewrite Hout by done. done.
      * rewrite Hrest by done. rewrite Hh1; [done|]. by intros ->.
    + intros o' Ho'. apply not_elem_of_cons in Ho' as [Hne Ho'].
      rewrite Hout by done. by apply Hh1.
  - set (h2 := after_presave o h1).
    assert (∀ o', o' ≠ o → h2 o' = h o') as Hh2.
    { intros o' Hne. unfold h2. rewrite after_presave_other by done.
      by apply Hh1. }
    assert (h2 o = presave_step (presave_step (h o))) as Hh2o.
    { unfold h2. by rewrite after_presave_same, Hh1o. }
    destruct (IH ({[k]} ∪ keyset) h2 Hnd)
      as (h' & ps & Hgen & Hps & Hsurv & Hrest & Hout).
    cbn zeta in Hgen, Hps, Hsurv, Hrest.
    assert ((λ o', (o', row_of kf (attrs (presave_step (h2 o'))))) <$> rest
            = (λ o', (o', row_of kf (attrs (presave_step (h o'))))) <$> rest)
      as Hscan.
    { apply fmap_ext_elem. intros o' Ho'. rewrite Hh2; [done|]. by intros ->. }
    rewrite Hscan in Hgen, Hps, Hsurv, Hrest.
    set (surv := (first_seen ({[k]} ∪ keyset)
                    ((λ o', (o', row_of kf (attrs (presave_step (h o')))))
                       <$> rest)).*1) in *.
    assert (∀ o', o' ∈ surv → o' ∈ rest) as Hsub.
    { intros o' Ho'%first_seen_fst_elem.
      by rewrite <- list_fmap_compose, list_fmap_id in Ho'. }
    assert (o ∉ surv) as Hos by (intros Ho%Hsub; done).
    exists h', (hooked h [o] ++ hooked h [o] ++ ps). cbn zeta.
    rewrite fmap_cons. cbn [fst]. fold surv.
    split; [|split; [|split; [|split]]].
    + erewrite for_gen_run.
      2:{ erewrite bind_ok_ok; [| apply prep_values_run |].
          2:{ fold h1. rewrite Hh1o. fold k. rewrite decide_False by done.
              reflexivity. }
          reflexivity. }
      2:{ rewrite for_gen_yield.
          erewrite bind_ok_ok; [| apply prep_values_run |].
          2:{ fold h2. erewrite bind_ok_ok; [| apply Hgen | reflexivity].
              reflexivity. }
          reflexivity. }
      rewrite !app_nil_r, !fmap_app. rewrite Hh2o.
      unfold h1 at 1. rewrite hooked_after_presave.
      rewrite fmap_cons. f_equal. f_equal. f_equal. f_equal.
      apply fmap_ext_elem. intros o' Ho'%Hsub.
      rewrite Hh2; [done|]. by intros ->.
    + rewrite Hps. unfold h2, h1. rewrite !hooked_after_presave.
      change (o :: rest) with ([o] ++ rest).
      change (o :: surv) with ([o] ++ surv). rewrite !hooked_app.
      solve_Permutation.
    + intros o' [->|Ho']%elem_of_cons.
      * by rewrite Hout.
      * rewrite Hsurv by done. rewrite Hh2; [done|].
        apply Hsub in Ho'. by intros ->.
    + intros o' [->|Ho']%elem_of_cons Hns.
      * exfalso. apply Hns. by left.
      * rewrite Hrest; [| done | intros Hs; apply Hns; by right].
        rewrite Hh2; [done|]. by intros ->.
    + intros o' Ho'. apply not_elem_of_cons in Ho' as [Hne Ho'].
      rewrite Hout by done. by apply Hh2.
Qed.

Lemma presave_step_hook (ob : Obj Attrs) :
  presave (presave_step ob) = presave ob.
Proof. apply (presave_iter_step 1). Qed.

(** X13.  On a batch of distinct records [insert_or_update_many] reads
    each value after a fixed number of calls of the record's [presave]
    method: the key-tuples of the existence select after one call; the rows
    of the update after two; the key-tuples the deduplicator compares after
    two; the rows of the insert after three.  At the end a record has had
    three calls when it was inserted, two when it was an insert candidate
    that the deduplicator dropped or when it was updated, one when it was an
    update candidate and [skip_update] is set; any other object has had
    none. *)
Theorem upsert_hook_applications model (objects : list oid) keys
    (skip_update : bool) h :
  let ks := keys_or keys [pk_name model] in
  let kf := key_fields_of model ks in
  let sql := select_sql quote_name model ks (length objects) in
  let after n o := attrs (Nat.iter n presave_step (h o)) in
  let key_of o := row_of kf (after 1 o) in
  let existing : gset (list Value) :=
    list_to_set (fetchall sql (concat (key_of <$> objects))) in
  let upd := filter (λ o, key_of o ∈ existing) objects in
  let ins := filter (λ o, key_of o ∉ existing) objects in
  let winners :=
    (first_seen ∅ ((λ o, (o, row_of kf (after 2 o))) <$> reverse ins)).*1 in
  let calls o :=
    if decide (o ∈ winners) then 3
    else if decide (o ∈ ins) then 2
    else if decide (o ∈ upd) then (if skip_update then 1 else 2)
    else 0 in
  NoDup objects → objects ≠ [] → kf ≠ [] →
  ∃ h' ps,
    insert_or_update_many quote_name fetchall managed model objects keys
      skip_update h
    = (Ok tt, h',
       (Presave <$> hooked h objects)
         ++ [Execute sql (concat (key_of <$> objects))]
         ++ (if skip_update then []
             else (Presave <$> hooked h upd)
                    ++ (if decide (upd = []) then []
                        else [ExecuteMany (update_sql quote_name model ks)
                                ((λ o, row_of (value_fields_of model ks ++ kf)
                                         (after 2 o)) <$> upd)]))
         ++ (Presave <$> ps)
         ++ [ExecuteMany (insert_sql quote_name model)
               ((λ o, row_of (_model_fields model) (after 3 o)) <$> winners)]
         ++ (if managed then [] else [Commit]))
    ∧ ps ≡ₚ hooked h ins ++ hooked h winners
    ∧ (∀ o, h' o = Nat.iter (calls o) presave_step (h o)).
Proof.
  intros ks kf sql after key_of existing upd ins winners calls Hnd Hne Hkf.
  set (pair := λ o, (o, key_of o)).
  set (oks := pair <$> objects).
  assert (oks.*2 = key_of <$> objects) as Hsnd.
  { unfold oks. by rewrite <- list_fmap_compose. }
  (* the key-tuples *)
  destruct (object_keys_nodup kf objects h Hnd) as (h1 & Hrun1 & Hin1 & Hout1).
  change (object_keys_of kf objects h
          = (Ok oks, h1, Presave <$> hooked h objects)) in Hrun1.
  assert (same_hooks h h1) as Hs1.
  { intros o. destruct (decide (o ∈ objects)) as [Ho|Ho].
    - rewrite Hin1 by done. apply presave_step_hook.
    - by rewrite Hout1. }
  destruct (update_objects_fmap key_of objects existing) as [Hupd Hins].
  fold pair oks upd ins in Hupd, Hins.
  assert (NoDup upd) as Hndu by (by apply list.NoDup_filter).
  assert (NoDup ins) as Hndi by (by apply list.NoDup_filter).
  assert (∀ o, o ∈ upd → o ∈ objects) as Hupd_in
    by (by intros o [_ Ho]%list_elem_of_filter).
  assert (∀ o, o ∈ ins → o ∈ objects) as Hins_in
    by (by intros o [_ Ho]%list_elem_of_filter).
  assert (∀ o, o ∈ ins → o ∉ upd) as Hdisj.
  { intros o [Hk _]%list_elem_of_filter [Hk' _]%list_elem_of_filter. done. }
  assert (∀ o, o ∈ objects → o ∉ ins → o ∈ upd) as Hcover.
  { intros o Ho Hni. apply list_elem_of_filter. split; [|done].
    destruct (decide (key_of o ∈ existing)) as [|Hk]; [done|].
    exfalso. apply Hni. by apply list_elem_of_filter. }
  (* the update *)
  assert (∃ h2,
    (if negb skip_update
     then _update_many quote_name model upd (Some ks)
     else mret tt) h1
    = (Ok tt, h2,
       if skip_update then []
       else (Presave <$> hooked h upd)
              ++ (if decide (upd = []) then []
                  else [ExecuteMany (update_sql quote_name model ks)
                          ((λ o, row_of (value_fields_of model ks ++ kf)
                                   (after 2 o)) <$> upd)]))
    ∧ (∀ o, o ∈ upd →
            h2 o = Nat.iter (if skip_update then 1 else 2) presave_step (h o))
    ∧ (∀ o, o ∉ upd → h2 o = h1 o)) as (h2 & Hrun2 & Hin2 & Hout2).
  { destruct skip_update; cbn [negb].
    - exists h1. split; [done|]. split; [|done].
      intros o Ho. apply Hin1. by apply Hupd_in.
    - pose proof (update_many_nodup model upd (Some ks) h1) as Hu.
      cbv zeta in Hu. unfold ks in Hu |- *. rewrite keys_or_idem in Hu by done.
      destruct (Hu Hkf Hndu) as (h2 & Hrun & Hin & Hout).
      exists h2. split; [|split; [|done]].
      + rewrite Hrun. rewrite (hooked_same_hooks h h1) by done.
        f_equal. f_equal. destruct (decide (upd = [])); [done|].
        f_equal. f_equal. apply fmap_ext_elem. intros o Ho.
        unfold after. rewrite Hin1 by (by apply Hupd_in). done.
      + intros o Ho. rewrite Hin by done.
        rewrite Hin1 by (by apply Hupd_in). done. }
  assert (same_hooks h h2) as Hs2.
  { intros o. destruct (decide (o ∈ upd)) as [Ho|Ho].
    - rewrite Hin2 by done. apply presave_iter_step.
    - rewrite Hout2 by done. apply Hs1. }
  assert (∀ o, o ∈ ins → h2 o = presave_step (h o)) as Hh2ins.
  { intros o Ho. rewrite Hout2 by (by apply Hdisj).
    apply Hin1. by apply Hins_in. }
  (* the insert *)
  assert (NoDup (reverse ins)) as Hndr by (by rewrite reverse_Permutation).
  destruct (filter_loop_nodup kf (_model_fields model) (reverse ins) ∅ h2 Hndr)
    as (h' & ps & Hgen & Hps & Hsurv & Hrest & Hout3).
  cbn zeta in Hgen, Hps, Hsurv, Hrest.
  assert ((λ o, (o, row_of kf (attrs (presave_step (h2 o))))) <$> reverse ins
          = (λ o, (o, row_of kf (after 2 o))) <$> reverse ins) as Hscan.
  { apply fmap_ext_elem. intros o Ho. rewrite elem_of_reverse in Ho.
    unfold after. by rewrite Hh2ins. }
  rewrite Hscan in Hgen, Hps, Hsurv, Hrest. fold winners in Hgen, Hps, Hsurv, Hrest.
  assert (∀ o, o ∈ winners → o ∈ ins) as Hwin.
  { intros o Ho%first_seen_fst_elem.
    rewrite fmap_pair_fst in Ho. by rewrite elem_of_reverse in Ho. }
  assert (_insert_many quote_name model (PyGen (_filter_objects ins kf)) h2
          = (Ok tt, h',
             (Presave <$> ps)
               ++ [ExecuteMany (insert_sql quote_name model)
                     ((λ o, row_of (_model_fields model) (after 3 o))
                        <$> winners)])) as Hrun3.
  { unfold _insert_many. cbn [truthy negb]. unfold for_each.
    erewrite bind_ok_ok; [| | reflexivity].
    2:{ rewrite for_gen_filter_objects. apply Hgen. }
    f_equal. f_equal. f_equal. f_equal. apply fmap_ext_elem.
    intros o Ho%Hwin. unfold after. by rewrite Hh2ins. }
  exists h', ps. split; [|split].
  - unfold insert_or_update_many. fold ks kf sql.
    rewrite bool_decide_false by done.
    rewrite (bool_decide_true (kf ≠ [])) by done. unfold assert.
    erewrite bind_ok_ok; [| reflexivity |].
    2:{ erewrite bind_ok_ok; [| apply Hrun1 |].
        2:{ erewrite bind_ok_ok; [| reflexivity |].
            2:{ rewrite Hsnd. fold existing. rewrite Hupd, Hins.
                erewrite bind_ok_ok; [| apply Hrun2 |].
                2:{ erewrite bind_ok_ok; [| apply Hrun3 |].
                    2:{ apply commit_unless_managed_run. }
                    reflexivity. }
                reflexivity. }
            reflexivity. }
        reflexivity. }
    rewrite Hsnd. cbn [app]. f_equal. f_equal. f_equal.
    f_equal. by rewrite <- (assoc_L (++)).
  - rewrite Hps. rewrite !(hooked_same_hooks h h2) by done.
    unfold hooked. by rewrite filter_reverse, reverse_Permutation.
  - intros o. unfold calls.
    destruct (decide (o ∈ winners)) as [Hw|Hw].
    { rewrite Hsurv by done. by rewrite Hh2ins by (by apply Hwin). }
    destruct (decide (o ∈ ins)) as [Hi|Hi].
    { rewrite Hrest; [| by rewrite elem_of_reverse | done].
      by rewrite Hh2ins. }
    rewrite Hout3 by (by rewrite elem_of_reverse).
    destruct (decide (o ∈ upd)) as [Hu|Hu].
    { by apply Hin2. }
    rewrite Hout2 by done. apply Hout1.
    intros Ho. apply Hu. by apply Hcover.
Qed.

End HookCounts.

(** ** Runs on the [Person] model *)

Section PersonMoreRuns.
Import Person.

Lemma person_no_hook (l : list oid) :
  2 ∉ l → ∀ o, o ∈ l → presave (heap o) = None.
Proof.
  intros Hl o Ho. destruct o as [|[|[|o]]]; [done|done| |done].
  by destruct Hl.
Defined.

Lemma insert_many_rows_witness :
  [0; 2] ≠ []
  ∧ ∃ rows,
      events_of (insert_many backtick false model [0; 2] heap)
      = [Presave 2;
         ExecuteMany "INSERT INTO person (`email`,`name`) VALUES (%s,%s)" rows;
         Commit]
      ∧ length rows = 2
      ∧ rows !! 0 = Some ["a@x"; "Ann"].
Proof.
  assert ([0; 2] ≠ []) as Hne by discriminate.
  split; [exact Hne|].
  destruct (insert_many_rows backtick false model [0; 2] heap Hne)
    as (rows & h' & Hrun & Hlen & _ & _ & _ & Hrow).
  exists rows. rewrite Hrun. split; [reflexivity|]. split; [exact Hlen|].
  destruct rows as [|row rows]; [discriminate Hlen|].
  cbn [lookup list_lookup]. f_equal.
  exact (Hrow 0 0 row eq_refl eq_refl eq_refl).
Defined.

Lemma keys_as_set_witness :
  (∀ f, f ∈ fields model →
        name f ∈ keys_or (Some ["email"; "bogus"; "email"]) [pk_name model]
        ↔ name f ∈ keys_or email_key [pk_name model])
  ∧ update_many backtick false model [0; 2]
      (Some ["email"; "bogus"; "email"]) heap
    = update_many backtick false model [0; 2] email_key heap
  ∧ insert_or_update_many backtick full_table false model [0; 2]
      (Some ["email"; "bogus"; "email"]) false heap
    = insert_or_update_many backtick full_table false model [0; 2] email_key
        false heap.
Proof.
  assert (∀ f, f ∈ fields model →
            name f ∈ keys_or (Some ["email"; "bogus"; "email"]) [pk_name model]
            ↔ name f ∈ keys_or email_key [pk_name model]) as Hsame.
  { intros f Hf. cbn in Hf.
    repeat (apply elem_of_cons in Hf as [->|Hf]); [compute_done..|].
    by apply elem_of_nil in Hf. }
  split; [exact Hsame|].
  exact (keys_as_set backtick full_table false model [0; 2]
           (Some ["email"; "bogus"; "email"]) email_key false heap Hsame).
Defined.

Lemma update_empty_set_clause_witness :
  [0; 2] ≠ []
  ∧ key_fields_of model (keys_or (Some ["email"; "name"]) [pk_name model]) ≠ []
  ∧ (∀ f, f ∈ fields model → is_auto f = false →
          name f ∈ keys_or (Some ["email"; "name"]) [pk_name model])
  ∧ ∃ rows,
      events_of
        (update_many backtick false model [0; 2] (Some ["email"; "name"]) heap)
      = [Presave 2;
         ExecuteMany "UPDATE person SET  WHERE `email`=%s AND `name`=%s" rows;
         Commit].
Proof.
  assert ([0; 2] ≠ []) as Hne by discriminate.
  assert (key_fields_of model
            (keys_or (Some ["email"; "name"]) [pk_name model]) ≠ [])
    as Hkf by (vm_compute; discriminate).
  assert (∀ f, f ∈ fields model → is_auto f = false →
               name f ∈ keys_or (Some ["email"; "name"]) [pk_name model])
    as Hall.
  { intros f Hf Hauto. cbn in Hf.
    repeat (apply elem_of_cons in Hf as [->|Hf]);
      [discriminate Hauto | compute_done | compute_done |].
    by apply elem_of_nil in Hf. }
  split; [exact Hne|]. split; [exact Hkf|]. split; [exact Hall|].
  destruct (update_empty_set_clause backtick false model [0; 2]
              (Some ["email"; "name"]) heap Hne Hkf Hall)
    as (rows & h' & Hrun & _).
  exists rows. rewrite Hrun. reflexivity.
Defined.

Lemma filter_objects_distinct_keys_witness :
  mapM (_prep_values [f_email]) (reverse [0; 2; 3]) heap
  = (Ok [["c@x"]; ["b@x"]; ["a@x"]],
     heap_of (mapM (_prep_values [f_email]) (reverse [0; 2; 3]) heap),
     [Presave 2])
  ∧ NoDup [["c@x"]; ["b@x"]; ["a@x"]]
  ∧ result_of (for_gen (_filter_objects [0; 2; 3] [f_email]) mret heap)
    = Ok [3; 2; 0].
Proof.
  assert (mapM (_prep_values [f_email]) (reverse [0; 2; 3]) heap
          = (Ok [["c@x"]; ["b@x"]; ["a@x"]],
             heap_of (mapM (_prep_values [f_email]) (reverse [0; 2; 3]) heap),
             [Presave 2])) as Hrows by reflexivity.
  assert (NoDup [["c@x"]; ["b@x"]; ["a@x"]]) as Hnd by compute_done.
  split; [exact Hrows|]. split; [exact Hnd|].
  rewrite (filter_objects_distinct_keys [f_email] [0; 2; 3] heap _ _ _
             Hrows Hnd).
  reflexivity.
Defined.

Lemma upsert_without_hooks_witness :
  [0; 1; 3] ≠ []
  ∧ key_fields_of model (keys_or email_key [pk_name model]) ≠ []
  ∧ (∀ o, o ∈ [0; 1; 3] → presave (heap o) = None)
  ∧ events_of
      (insert_or_update_many backtick empty_table false model [0; 1; 3]
         email_key false heap)
    = [Execute
         "SELECT `email` FROM person WHERE (`email`) IN ((%s),(%s),(%s))"
         ["a@x"; "a@x"; "c@x"];
       ExecuteMany "INSERT INTO person (`email`,`name`) VALUES (%s,%s)"
         [["c@x"; "Cy"]; ["a@x"; "Ann2"]];
       Commit].
Proof.
  assert ([0; 1; 3] ≠ []) as Hne by discriminate.
  assert (∀ o, o ∈ [0; 1; 3] → presave (heap o) = None) as Hno
    by (apply person_no_hook; compute_done).
  split; [exact Hne|]. split; [exact person_key_fields|]. split; [exact Hno|].
  rewrite (proj1 (proj2 (upsert_without_hooks backtick empty_table false model
                           [0; 1; 3] email_key false heap Hne
                           person_key_fields Hno))).
  reflexivity.
Defined.

Lemma select_parameter_count_witness :
  [0; 1; 2; 3] ≠ []
  ∧ key_fields_of model (keys_or email_key [pk_name model]) ≠ []
  ∧ ∃ params evs,
      events_of
        (insert_or_update_many backtick full_table false model [0; 1; 2; 3]
           email_key false heap)
      = [Presave 2;
         Execute
           "SELECT `email` FROM person WHERE (`email`) IN ((%s),(%s),(%s),(%s))"
           params]
          ++ evs
      ∧ length params = 4.
Proof.
  assert ([0; 1; 2; 3] ≠ []) as Hne by discriminate.
  split; [exact Hne|]. split; [exact person_key_fields|].
  destruct (select_parameter_count backtick full_table false model
              [0; 1; 2; 3] email_key false heap Hne person_key_fields)
    as (params & evs & h' & Hrun & Hlen & _).
  exists params, evs. rewrite Hrun. split; [reflexivity | exact Hlen].
Defined.

Lemma upsert_new_records_is_insert_witness :
  [0; 3] ≠ []
  ∧ key_fields_of model (keys_or email_key [pk_name model]) ≠ []
  ∧ (∀ o, o ∈ [0; 3] → presave (heap o) = None)
  ∧ NoDup [["a@x"]; ["c@x"]]
  ∧ events_of
      (insert_or_update_many backtick empty_table false model [0; 3]
         email_key false heap)
    = Execute "SELECT `email` FROM person WHERE (`email`) IN ((%s),(%s))"
        ["a@x"; "c@x"]
        :: events_of (insert_many backtick false model [3; 0] heap).
Proof.
  assert ([0; 3] ≠ []) as Hne by discriminate.
  assert (∀ o, o ∈ [0; 3] → presave (heap o) = None) as Hno
    by (apply person_no_hook; compute_done).
  assert (NoDup [["a@x"]; ["c@x"]]) as Hnd by compute_done.
  split; [exact Hne|]. split; [exact person_key_fields|]. split; [exact Hno|].
  split; [exact Hnd|].
  rewrite (proj1 (upsert_new_records_is_insert backtick empty_table false
                    model [0; 3] email_key false heap Hne person_key_fields
                    Hno Hnd (λ k _, not_elem_of_nil k))).
  reflexivity.
Defined.

Lemma upsert_known_records_is_update_witness :
  [0; 3] ≠ []
  ∧ key_fields_of model (keys_or email_key [pk_name model]) ≠ []
  ∧ (∀ o, o ∈ [0; 3] → presave (heap o) = None)
  ∧ events_of
      (insert_or_update_many backtick full_table false model [0; 3]
         email_key false heap)
    = [Execute "SELECT `email` FROM person WHERE (`email`) IN ((%s),(%s))"
         ["a@x"; "c@x"];
       ExecuteMany "UPDATE person SET `name`=%s WHERE `email`=%s"
         [["Ann"; "a@x"]; ["Cy"; "c@x"]];
       ExecuteMany "INSERT INTO person (`email`,`name`) VALUES (%s,%s)" [];
       Commit].
Proof.
  assert ([0; 3] ≠ []) as Hne by discriminate.
  assert (∀ o, o ∈ [0; 3] → presave (heap o) = None) as Hno
    by (apply person_no_hook; compute_done).
  split; [exact Hne|]. split; [exact person_key_fields|]. split; [exact Hno|].
  rewrite (proj1 (upsert_known_records_is_update backtick full_table false
                    model [0; 3] email_key heap Hne person_key_fields Hno
                    (λ k Hk, Hk))).
  reflexivity.
Defined.

Lemma upsert_hook_applications_witness :
  NoDup [2; 3]
  ∧ [2; 3] ≠ []
  ∧ key_fields_of model (keys_or email_key [pk_name model]) ≠ []
  ∧ ∃ ps,
      events_of
        (insert_or_update_many backtick empty_table false model [2; 3]
           email_key false heap)
      = [Presave 2;
         Execute "SELECT `email` FROM person WHERE (`email`) IN ((%s),(%s))"
           ["b@x"; "c@x"]]
          ++ (Presave <$> ps)
          ++ [ExecuteMany "INSERT INTO person (`email`,`name`) VALUES (%s,%s)"
                [["c@x"; "Cy"]; ["b@x"; "Bob!!!"]];
              Commit]
      ∧ heap_of
          (insert_or_update_many backtick empty_table false model [2; 3]
             email_key false heap) 2
        = mkObj (mk "" "b@x" "Bob!!!") (Some touch).
Proof.
  assert (NoDup [2; 3]) as Hnd by compute_done.
  assert ([2; 3] ≠ []) as Hne by discriminate.
  split; [exact Hnd|]. split; [exact Hne|]. split; [exact person_key_fields|].
  destruct (upsert_hook_applications backtick empty_table false model [2; 3]
              email_key false heap Hnd Hne person_key_fields)
    as (h' & ps & Hrun & _ & Hheap).
  exists ps. rewrite Hrun. split; [reflexivity|].
  unfold heap_of. cbn [fst snd]. rewrite (Hheap 2). reflexivity.
Defined.

End PersonMoreRuns.
